(** * TagLib::List<T>: the implicitly shared list of taglib/toolkit/tlist.h

    A shallow embedding of [TagLib::List<T>] and of the part of
    [std::shared_ptr] and [std::list] it relies on.

    - [ListPrivate.t] is the private class [List<T>::ListPrivate<TP>]: the
      [std::list] of elements and the [autoDelete] flag inherited from
      [ListPrivateBase].
    - A [shared_block] is what a [std::shared_ptr<ListPrivate<T>>] points to:
      the managed object together with its [use_count], which is at least one
      for as long as the block lives.
    - A [world] is the free store: the live blocks, by address, and the log of
      the pointees that [delete] has been called on (it only grows in the
      partial specialisation [ListPrivate<TP *>]).
    - A [List] is the class itself: its single member [d].
    - Member functions are computations in the monad [M] (state passing over
      the [world]; [None] is undefined behaviour: a dangling handle, an
      iterator of another store, an iterator that cannot be dereferenced).
      A non-const member that may rebind [d] returns the new value of [*this]. *)

From stdpp Require Import gmap list sorting.
From Stdlib Require Import ZArith Lia.

Set Default Proof Using "Type".

(** ** Data model *)

Module ListPrivate.
Record t (T : Type) : Type := mk {
  list : Datatypes.list T;
  autoDelete : bool
}.
Arguments mk {T} _ _.
Arguments list {T} _.
Arguments autoDelete {T} _.
End ListPrivate.

Abbreviation loc := positive (only parsing).

Record shared_block (T : Type) : Type := SharedBlock {
  use_count : positive;
  obj : ListPrivate.t T
}.
Arguments SharedBlock {T} _ _.
Arguments use_count {T} _.
Arguments obj {T} _.

Record world (T : Type) : Type := World {
  stores : gmap loc (shared_block T);
  deleted : list T
}.
Arguments World {T} _ _.
Arguments stores {T} _.
Arguments deleted {T} _.

(** [class List { std::shared_ptr<ListPrivate<T>> d; }] *)
Record List : Type := MkList { d : loc }.

(** [std::list<T>::iterator]: the store whose list it walks and the position
    in it, [it_pos = length] being the past-the-end position. *)
Record Iterator : Type := MkIterator { it_store : loc; it_pos : nat }.

Definition Iterator_eqb (a b : Iterator) : bool :=
  bool_decide (it_store a = it_store b) && Nat.eqb (it_pos a) (it_pos b).

(** [++it] *)
Definition Iterator_next (it : Iterator) : Iterator :=
  MkIterator (it_store it) (S (it_pos it)).

(** [unsigned int] is 32 bits wide. *)
Definition UINT_BITS : Z := 32.
Definition to_unsigned_int (n : Z) : Z := n mod 2 ^ UINT_BITS.

(** ** The state monad *)

Definition M (T A : Type) : Type := world T -> option (A * world T).

Definition ret {T A} (a : A) : M T A := fun w => Some (a, w).

Definition bind {T A B} (m : M T A) (k : A -> M T B) : M T B :=
  fun w => match m w with
           | Some (a, w') => k a w'
           | None => None
           end.

Definition undefined {T A} : M T A := fun _ => None.

Notation "x <~ m ;; k" := (bind m (fun x => k))
  (at level 20, m at level 99, k at level 200, only parsing).
Notation "' pat <~ m ;; k" := (bind m (fun x => match x with pat => k end))
  (at level 20, pat pattern, m at level 99, k at level 200, only parsing).
Notation "m ;;; k" := (bind m (fun _ => k))
  (at level 100, k at level 200, only parsing, right associativity).

(** ** std::list operations used by the class *)

Section StdList.
Context {T : Type}.

(** [std::list::insert(pos, value)] at a position index. *)
Definition list_insert_at (i : nat) (x : T) (l : list T) : list T :=
  take i l ++ x :: drop i l.

(** [std::list::erase(pos)] at a position index. *)
Definition list_erase_at (i : nat) (l : list T) : list T :=
  take i l ++ drop (S i) l.

(** [std::find(first, last, value)]: the index of the first element equal
    to [value], the length when there is none. *)
Fixpoint std_find (eq : T -> T -> bool) (value : T) (l : list T) : nat :=
  match l with
  | [] => 0
  | x :: l' => if eq x value then 0 else S (std_find eq value l')
  end.

(** [operator==] of [std::list]: equal sizes and equal elements, pairwise
    by the element type's [operator==]. *)
Fixpoint std_list_eq (eq : T -> T -> bool) (a b : list T) : bool :=
  match a, b with
  | [], [] => true
  | x :: a', y :: b' => eq x y && std_list_eq eq a' b'
  | _, _ => false
  end.

(** [std::list::sort(comp)] is a stable sort; insertion sort that keeps
    equivalent elements in their order stands for it. *)
Fixpoint sort_insert (comp : T -> T -> bool) (x : T) (l : list T) : list T :=
  match l with
  | [] => [x]
  | y :: l' => if comp x y then x :: y :: l' else y :: sort_insert comp x l'
  end.

Definition std_list_sort (comp : T -> T -> bool) (l : list T) : list T :=
  foldr (sort_insert comp) [] l.
End StdList.

(** ** std::shared_ptr and ListPrivate *)

Section Model.
Context {T : Type}.
(** [operator<] and [operator==] of the element type. *)
Variable T_lt : T -> T -> bool.
Variable T_eq : T -> T -> bool.
(** Whether [T] is a pointer type, that is, whether [ListPrivate<T>] is the
    partial specialisation [ListPrivate<TP *>]. *)
Variable T_is_pointer : bool.

Local Abbreviation MT := (M T).

(** [delete m] for each [m] of [xs]. *)
Definition delete_all (xs : list T) : MT unit :=
  fun w => Some (tt, World (stores w) (deleted w ++ xs)).

(** The pointees [ListPrivate::clear()] deletes: in the generic class
    none; in the specialisation all members when [autoDelete] is set. *)
Definition ListPrivate_deletes (p : ListPrivate.t T) : list T :=
  if T_is_pointer && ListPrivate.autoDelete p then ListPrivate.list p else [].

(** The three constructors; [autoDelete{}] is value-initialised in each. *)
Definition ListPrivate_default : ListPrivate.t T := ListPrivate.mk [] false.
Definition ListPrivate_of_list (l : list T) : ListPrivate.t T :=
  ListPrivate.mk l false.
Definition ListPrivate_of_init (init : list T) : ListPrivate.t T :=
  ListPrivate.mk init false.

(** [std::make_shared<ListPrivate<T>>(...)]: a new block at an address not
    in use, owned once. *)
Definition make_shared (p : ListPrivate.t T) : MT loc :=
  fun w =>
    let a := fresh (dom (stores w)) in
    Some (a, World (<[a := SharedBlock 1 p]> (stores w)) (deleted w)).

Definition sp_block (a : loc) : MT (shared_block T) :=
  fun w => match stores w !! a with
           | Some b => Some (b, w)
           | None => None
           end.

(** [d.use_count()] *)
Definition sp_use_count (a : loc) : MT positive :=
  b <~ sp_block a ;; ret (use_count b).

(** [*d], read *)
Definition sp_get (a : loc) : MT (ListPrivate.t T) :=
  b <~ sp_block a ;; ret (obj b).

(** [*d = p], write through the pointer *)
Definition sp_set (a : loc) (p : ListPrivate.t T) : MT unit :=
  b <~ sp_block a ;;
  fun w => Some (tt, World (<[a := SharedBlock (use_count b) p]> (stores w))
                           (deleted w)).

(** [d->clear()], that is [ListPrivate::clear()] *)
Definition ListPrivate_clear (a : loc) : MT unit :=
  p <~ sp_get a ;;
  delete_all (ListPrivate_deletes p) ;;;
  sp_set a (ListPrivate.mk [] (ListPrivate.autoDelete p)).

(** Copying a [shared_ptr]: one more owner. *)
Definition sp_acquire (a : loc) : MT unit :=
  b <~ sp_block a ;;
  fun w => Some (tt, World (<[a := SharedBlock (Pos.succ (use_count b)) (obj b)]> (stores w))
                           (deleted w)).

(** Freeing a block. *)
Definition sp_free (a : loc) : MT unit :=
  fun w => Some (tt, World (delete a (stores w)) (deleted w)).

(** Destroying or overwriting a [shared_ptr]: one owner fewer; the last
    owner runs [~ListPrivate()] (in the specialisation it calls [clear()],
    which deletes the pointees when [autoDelete] is set) and frees the
    block. *)
Definition sp_release (a : loc) : MT unit :=
  b <~ sp_block a ;;
  if Pos.eqb (use_count b) 1
  then delete_all (ListPrivate_deletes (obj b)) ;;; sp_free a
  else fun w =>
    Some (tt, World (<[a := SharedBlock (Pos.pred (use_count b)) (obj b)]> (stores w))
                    (deleted w)).

(** ** TagLib::List<T> *)

(** [List<T>::List()] *)
Definition List_new : MT List :=
  a <~ make_shared ListPrivate_default ;; ret (MkList a).

(** [List<T>::List(const List<T> &) = default] *)
Definition List_copy (l : List) : MT List :=
  sp_acquire (d l) ;;; ret (MkList (d l)).

(** [List<T>::List(std::initializer_list<T> init)] *)
Definition List_init (init : list T) : MT List :=
  a <~ make_shared (ListPrivate_of_init init) ;; ret (MkList a).

(** [List<T>::~List() = default] *)
Definition List_destroy (l : List) : MT unit :=
  sp_release (d l).

(** [List<T>::detach()] *)
Definition detach (l : List) : MT List :=
  n <~ sp_use_count (d l) ;;
  if Pos.ltb 1 n then
    p <~ sp_get (d l) ;;
    a <~ make_shared (ListPrivate_of_list (ListPrivate.list p)) ;;
    sp_release (d l) ;;;
    ret (MkList a)
  else ret l.

(** [d->list], read by a const member *)
Definition elements (l : List) : MT (list T) :=
  p <~ sp_get (d l) ;; ret (ListPrivate.list p).

(** [d->list = xs], what a mutating member of [std::list] leaves. *)
Definition set_elements (l : List) (xs : list T) : MT unit :=
  p <~ sp_get (d l) ;;
  sp_set (d l) (ListPrivate.mk xs (ListPrivate.autoDelete p)).

(** [Iterator List<T>::begin()] *)
Definition begin_ (l : List) : MT (List * Iterator) :=
  l <~ detach l ;;
  sp_get (d l) ;;;
  ret (l, MkIterator (d l) 0).

(** [ConstIterator List<T>::begin() const], [cbegin() const] *)
Definition cbegin (l : List) : MT Iterator :=
  sp_get (d l) ;;;
  ret (MkIterator (d l) 0).

(** [Iterator List<T>::end()] *)
Definition end_ (l : List) : MT (List * Iterator) :=
  l <~ detach l ;;
  xs <~ elements l ;;
  ret (l, MkIterator (d l) (length xs)).

(** [ConstIterator List<T>::end() const], [cend() const] *)
Definition cend (l : List) : MT Iterator :=
  xs <~ elements l ;;
  ret (MkIterator (d l) (length xs)).

(** [*it] *)
Definition Iterator_deref (it : Iterator) : MT T :=
  p <~ sp_get (it_store it) ;;
  match ListPrivate.list p !! it_pos it with
  | Some x => ret x
  | None => undefined
  end.

(** [List<T>::insert(Iterator it, const T &item)]: no detach; [it] has to
    be an iterator of [d->list]. *)
Definition insert (l : List) (it : Iterator) (item : T) : MT Iterator :=
  xs <~ elements l ;;
  if bool_decide (it_store it = d l) && Nat.leb (it_pos it) (length xs) then
    set_elements l (list_insert_at (it_pos it) item xs) ;;;
    ret (MkIterator (d l) (it_pos it))
  else undefined.

(** The loop of [sortedInsert]:
    [while(it != end() && *it < value) ++it;]
    [fuel] bounds the number of iterations. *)
Fixpoint sortedInsert_scan (fuel : nat) (l : List) (value : T) (it : Iterator)
  : MT (List * Iterator) :=
  '(l, e) <~ end_ l ;;
  if Iterator_eqb it e then ret (l, it)
  else
    x <~ Iterator_deref it ;;
    if T_lt x value then
      match fuel with
      | O => undefined
      | S fuel' => sortedInsert_scan fuel' l value (Iterator_next it)
      end
    else ret (l, it).

(** [List<T>::sortedInsert(const T &value, bool unique)]; the loop gets one
    unit of fuel for each element of the list, which is all it can use. *)
Definition sortedInsert (l : List) (value : T) (unique : bool) : MT List :=
  l <~ detach l ;;
  '(l, it) <~ begin_ l ;;
  xs <~ elements l ;;
  '(l, it) <~ sortedInsert_scan (length xs) l value it ;;
  '(l, e) <~ (if unique then end_ l else ret (l, it)) ;;
  stop <~ (if unique && negb (Iterator_eqb it e)
           then x <~ Iterator_deref it ;; ret (T_eq x value)
           else ret false) ;;
  if stop then ret l
  else insert l it value ;;; ret l.

(** [List<T>::append(const T &item)] *)
Definition append (l : List) (item : T) : MT List :=
  l <~ detach l ;;
  xs <~ elements l ;;
  set_elements l (xs ++ [item]) ;;;
  ret l.

(** [List<T>::append(const List<T> &l)]; [other] is another object than
    [*this]. *)
Definition append_list (l other : List) : MT List :=
  l <~ detach l ;;
  xs <~ elements l ;;
  ys <~ elements other ;;
  set_elements l (xs ++ ys) ;;;
  ret l.

(** [List<T>::prepend(const T &item)] *)
Definition prepend (l : List) (item : T) : MT List :=
  l <~ detach l ;;
  xs <~ elements l ;;
  set_elements l (item :: xs) ;;;
  ret l.

(** [List<T>::prepend(const List<T> &l)] *)
Definition prepend_list (l other : List) : MT List :=
  l <~ detach l ;;
  xs <~ elements l ;;
  ys <~ elements other ;;
  set_elements l (ys ++ xs) ;;;
  ret l.

(** [List<T>::clear()] *)
Definition clear (l : List) : MT List :=
  l <~ detach l ;;
  ListPrivate_clear (d l) ;;;
  ret l.

(** [unsigned int List<T>::size() const] *)
Definition size (l : List) : MT Z :=
  xs <~ elements l ;;
  ret (to_unsigned_int (Z.of_nat (length xs))).

(** [bool List<T>::isEmpty() const] *)
Definition isEmpty (l : List) : MT bool :=
  xs <~ elements l ;;
  ret (match xs with [] => true | _ => false end).

(** [Iterator List<T>::find(const T &value)] *)
Definition find (l : List) (value : T) : MT (List * Iterator) :=
  l <~ detach l ;;
  xs <~ elements l ;;
  ret (l, MkIterator (d l) (std_find T_eq value xs)).

(** [ConstIterator List<T>::find(const T &value) const], [cfind] *)
Definition cfind (l : List) (value : T) : MT Iterator :=
  xs <~ elements l ;;
  ret (MkIterator (d l) (std_find T_eq value xs)).

(** [bool List<T>::contains(const T &value) const] *)
Definition contains (l : List) (value : T) : MT bool :=
  xs <~ elements l ;;
  ret (negb (Nat.eqb (std_find T_eq value xs) (length xs))).

(** [List<T>::erase(Iterator it)]: no detach; [it] has to be an iterator of
    [d->list] that can be dereferenced. *)
Definition erase (l : List) (it : Iterator) : MT Iterator :=
  xs <~ elements l ;;
  if bool_decide (it_store it = d l) && Nat.ltb (it_pos it) (length xs) then
    set_elements l (list_erase_at (it_pos it) xs) ;;;
    ret (MkIterator (d l) (it_pos it))
  else undefined.

(** A [T &] into a list node: the store and the position of the node. *)
Definition Ref : Type := Iterator.

(** Reading and writing through a [T &]. *)
Definition Ref_read (r : Ref) : MT T := Iterator_deref r.

Definition Ref_write (r : Ref) (x : T) : MT unit :=
  p <~ sp_get (it_store r) ;;
  if Nat.ltb (it_pos r) (length (ListPrivate.list p)) then
    sp_set (it_store r)
           (ListPrivate.mk (<[it_pos r := x]> (ListPrivate.list p))
                           (ListPrivate.autoDelete p))
  else undefined.

(** [const T &List<T>::front() const] *)
Definition cfront (l : List) : MT T :=
  xs <~ elements l ;;
  match xs with
  | x :: _ => ret x
  | [] => undefined
  end.

(** [T &List<T>::front()] *)
Definition front (l : List) : MT (List * Ref) :=
  l <~ detach l ;;
  xs <~ elements l ;;
  match xs with
  | _ :: _ => ret (l, MkIterator (d l) 0)
  | [] => undefined
  end.

(** [const T &List<T>::back() const] *)
Definition cback (l : List) : MT T :=
  xs <~ elements l ;;
  match last xs with
  | Some x => ret x
  | None => undefined
  end.

(** [T &List<T>::back()] *)
Definition back (l : List) : MT (List * Ref) :=
  l <~ detach l ;;
  xs <~ elements l ;;
  match xs with
  | _ :: _ => ret (l, MkIterator (d l) (Nat.pred (length xs)))
  | [] => undefined
  end.

(** [void List<T>::setAutoDelete(bool autoDelete)] *)
Definition setAutoDelete (l : List) (flag : bool) : MT List :=
  l <~ detach l ;;
  p <~ sp_get (d l) ;;
  sp_set (d l) (ListPrivate.mk (ListPrivate.list p) flag) ;;;
  ret l.

(** [bool List<T>::autoDelete() const] *)
Definition autoDelete (l : List) : MT bool :=
  p <~ sp_get (d l) ;;
  ret (ListPrivate.autoDelete p).

(** [T &List<T>::operator[](unsigned int i)]: [begin()] of [d->list]
    advanced [i] times and dereferenced. *)
Definition index (l : List) (i : nat) : MT Ref :=
  xs <~ elements l ;;
  if Nat.ltb i (length xs) then ret (MkIterator (d l) i) else undefined.

(** [const T &List<T>::operator[](unsigned int i) const] *)
Definition cindex (l : List) (i : nat) : MT T :=
  xs <~ elements l ;;
  match xs !! i with
  | Some x => ret x
  | None => undefined
  end.

(** [List<T>::operator=(const List<T> &) = default]: the copy assignment
    of [shared_ptr] takes the new share before it gives up the old one. *)
Definition assign (l other : List) : MT List :=
  sp_acquire (d other) ;;;
  sp_release (d l) ;;;
  ret (MkList (d other)).

(** [void List<T>::swap(List<T> &l) noexcept]: the new values of [*this]
    and of [l]. *)
Definition swap (this l : List) : MT (List * List) :=
  ret (MkList (d l), MkList (d this)).

(** [List<T>::operator=(std::initializer_list<T> init)]; the temporary
    [List(init)] is destroyed at the end of the statement that swaps it. *)
Definition assign_init (l : List) (init : list T) : MT List :=
  autoDeleteEnabled <~ autoDelete l ;;
  tmp <~ List_init init ;;
  '(tmp, l) <~ swap tmp l ;;
  List_destroy tmp ;;;
  setAutoDelete l autoDeleteEnabled.

(** [bool List<T>::operator==(const List<T> &l) const] *)
Definition op_eq (this l : List) : MT bool :=
  xs <~ elements this ;;
  ys <~ elements l ;;
  ret (std_list_eq T_eq xs ys).

(** [bool List<T>::operator!=(const List<T> &l) const]; [operator!=] of
    [std::list] is the negation of its [operator==]. *)
Definition op_ne (this l : List) : MT bool :=
  xs <~ elements this ;;
  ys <~ elements l ;;
  ret (negb (std_list_eq T_eq xs ys)).

(** [void List<T>::sort(Compare&& comp)] *)
Definition sort_by (l : List) (comp : T -> T -> bool) : MT List :=
  l <~ detach l ;;
  xs <~ elements l ;;
  set_elements l (std_list_sort comp xs) ;;;
  ret l.

(** [void List<T>::sort()] *)
Definition sort (l : List) : MT List := sort_by l T_lt.

(** ** The non-const public members, as one type *)

Inductive mutator : Type :=
| MBegin
| MEnd
| MInsert (it : Iterator) (item : T)
| MSortedInsert (value : T) (unique : bool)
| MAppend (item : T)
| MAppendList (other : List)
| MPrepend (item : T)
| MPrependList (other : List)
| MClear
| MFind (value : T)
| MErase (it : Iterator)
| MFront
| MBack
| MSetAutoDelete (flag : bool)
| MIndex (i : nat)
| MAssign (other : List)
| MAssignInit (init : list T)
| MSwap (other : List)
| MSort
| MSortBy (comp : T -> T -> bool).

(** Running a member on [*this]: the value of [*this] afterwards. *)
Definition run (m : mutator) (l : List) : MT List :=
  match m with
  | MBegin => '(l, _) <~ begin_ l ;; ret l
  | MEnd => '(l, _) <~ end_ l ;; ret l
  | MInsert it item => insert l it item ;;; ret l
  | MSortedInsert value unique => sortedInsert l value unique
  | MAppend item => append l item
  | MAppendList other => append_list l other
  | MPrepend item => prepend l item
  | MPrependList other => prepend_list l other
  | MClear => clear l
  | MFind value => '(l, _) <~ find l value ;; ret l
  | MErase it => erase l it ;;; ret l
  | MFront => '(l, _) <~ front l ;; ret l
  | MBack => '(l, _) <~ back l ;; ret l
  | MSetAutoDelete flag => setAutoDelete l flag
  | MIndex i => index l i ;;; ret l
  | MAssign other => assign l other
  | MAssignInit init => assign_init l init
  | MSwap other => '(l, _) <~ swap l other ;; ret l
  | MSort => sort l
  | MSortBy comp => sort_by l comp
  end.

(** The two members that take an [Iterator] parameter. *)
Definition takes_iterator (m : mutator) : bool :=
  match m with
  | MInsert _ _ | MErase _ => true
  | _ => false
  end.

(** The members whose body calls [detach()]. *)
Definition calls_detach (m : mutator) : bool :=
  match m with
  | MInsert _ _ | MErase _ | MIndex _ | MAssign _ | MSwap _ => false
  | _ => true
  end.

(** The number of owners of the store [l] refers to. *)
Definition owners (w : world T) (l : List) : option positive :=
  use_count <$> stores w !! d l.

(** The element sequence of [l], and its flag. *)
Definition contents (w : world T) (l : List) : option (list T) :=
  (fun b => ListPrivate.list (obj b)) <$> stores w !! d l.

Definition flag (w : world T) (l : List) : option bool :=
  (fun b => ListPrivate.autoDelete (obj b)) <$> stores w !! d l.
End Model.

Arguments mutator : clear implicits.

(** ** Specification functions and test programs *)

Section Programs.
Context {T : Type}.
Variable T_lt : T -> T -> bool.
Variable T_eq : T -> T -> bool.
Variable T_is_pointer : bool.

(** The number of leading elements that are less than [value]: the
    position of the first element not less than [value]. *)
Fixpoint lower_bound (value : T) (xs : list T) : nat :=
  match xs with
  | [] => 0
  | y :: xs' => if T_lt y value then S (lower_bound value xs') else 0
  end.

(** [for(const T &x : xs) l.append(x);] *)
Fixpoint append_each (l : List) (xs : list T) : M T List :=
  match xs with
  | [] => ret l
  | x :: xs' => l <~ append T_is_pointer l x ;; append_each l xs'
  end.

(** The two ways of making a copy [B] of [A]: [List<T> B(A);] and
    [B = A;] for a list [B] that exists already. *)
Inductive copy_route : Type :=
| ByConstruction
| ByAssignment (B : List).

Definition make_copy (r : copy_route) (A : List) : M T List :=
  match r with
  | ByConstruction => List_copy A
  | ByAssignment B => assign T_is_pointer B A
  end.
(** The world a detach of a shared store leaves: a new block owned once,
    built by [ListPrivate(const std::list<TP> &)], and one owner fewer on
    the old block. *)
Definition detached (w : world T) (l : List) (b : shared_block T) : world T :=
  let a := fresh (dom (stores w)) in
  World (<[d l := SharedBlock (Pos.pred (use_count b)) (obj b)]>
           (<[a := SharedBlock 1 (ListPrivate.mk (ListPrivate.list (obj b)) false)]>
              (stores w)))
        (deleted w).


(** What copy assignment asks of its target [B]: it is a live list, and if
    it shares the store of [A] already, that store counts both owners. *)
Definition copy_target_ok (w : world T) (A : List) (r : copy_route) : Prop :=
  match r with
  | ByConstruction => True
  | ByAssignment B =>
      exists bB, stores w !! d B = Some bB /\
                 (d B = d A -> use_count bB <> 1%positive)
  end.

(** Copy independence with [x] found in [B] only, read literally: after
    [List<T> B(A); B.append(x);] the sequence of [A] is the one it was, the
    stores differ, [x] occurs in [B] and does not occur in [A]. *)
Definition copy_append_only_in_copy (w : world T) (A : List) (x : T) : Prop :=
  exists B w1 B' w2 xsA xsB,
    List_copy A w = Some (B, w1) /\
    append T_is_pointer B x w1 = Some (B', w2) /\
    contents w2 A = contents w A /\
    d B' <> d A /\
    contents w2 A = Some xsA /\
    contents w2 B' = Some xsB /\
    x ∈ xsB /\ x ∉ xsA.

(** Partial correctness of a computation: from a world in [P], a result
    that is returned is in [Q]. *)
Definition hoare {A} (P : world T -> Prop) (m : M T A)
    (Q : A -> world T -> Prop) : Prop :=
  forall w x w', P w -> m w = Some (x, w') -> Q x w'.

(** [w'] has the blocks of [w], each with as many owners. *)
Definition same_owners (w w' : world T) : Prop :=
  forall a, use_count <$> stores w' !! a = use_count <$> stores w !! a.

(** A computation that allocates and frees nothing and leaves every number
    of owners as it is. *)
Definition quiet {A} (m : M T A) : Prop :=
  forall w x w', m w = Some (x, w') -> same_owners w w'.

(** The list is the only owner of its store. *)
Definition sole (l : List) (w : world T) : Prop :=
  owners w l = Some 1%positive.

(** The copy-on-write invariant for every member but the two that take an
    iterator. *)
Definition sole_after_member (m : mutator T) (w : world T) (l : List) : Prop :=
  takes_iterator m = false ->
  forall l' w',
    run T_lt T_eq T_is_pointer m l w = Some (l', w') -> sole l' w'.

(** [x] is not greater than [y] by [operator<]; a list is in ascending order
    when no element is greater than its successor. *)
Definition T_le (x y : T) : Prop := T_lt y x = false.

Definition ascending (xs : list T) : Prop := Sorted T_le xs.

(** A computation that, besides being quiet, does not write the store at
    [a] and deletes nothing. *)
Definition steady (a : loc) {A} (m : M T A) : Prop :=
  forall w x w',
    m w = Some (x, w') ->
    same_owners w w' /\ stores w' !! a = stores w !! a /\ deleted w' = deleted w.

(** The list [l] is the only owner of a store other than the one at [a],
    which holds [blk], and the pointees deleted so far are [del]. *)
Definition apart (a : loc) (blk : shared_block T) (del : list T)
    (l : List) (w : world T) : Prop :=
  d l <> a /\ sole l w /\ stores w !! a = Some blk /\ deleted w = del.

(** A computation that leaves the world as it is. *)
Definition readonly {A} (m : M T A) : Prop :=
  forall w x w', m w = Some (x, w') -> w' = w.

(** The reading of detach under which the new store takes over the flag of
    the old one. *)
Definition detach_keeps_flag (w : world T) (l : List) : Prop :=
  forall l' w',
    detach T_is_pointer l w = Some (l', w') -> flag w' l' = flag w l.
End Programs.

(** Worlds with lists of integers, used as concrete inputs. *)

(** One store at address 1 holding [xs], with [n] owners. *)
Definition world_of (xs : list Z) (n : positive) (flag : bool) : world Z :=
  World {[ 1%positive := SharedBlock n (ListPrivate.mk xs flag) ]} [].

(** Two stores: [xs] at address 1 with one owner, [ys] at address 2 with [n]
    owners. *)
Definition world_two (xs ys : list Z) (n : positive) : world Z :=
  World (<[ 2%positive := SharedBlock n (ListPrivate.mk ys false) ]>
           {[ 1%positive := SharedBlock 1 (ListPrivate.mk xs false) ]}) [].

(** ** Properties *)

Section Proofs.
Context {T : Type}.
Variable T_lt : T -> T -> bool.
Variable T_eq : T -> T -> bool.
Variable T_is_pointer : bool.

Implicit Types (w : world T) (l : List) (b : shared_block T) (a : loc).

(** *** The monad *)

Lemma bind_eq {A B} (m : M T A) (k : A -> M T B) w x w' :
  m w = Some (x, w') -> bind m k w = k x w'.
Proof. unfold bind. intros ->. reflexivity. Qed.

Lemma bind_inv {A B} (m : M T A) (k : A -> M T B) w r :
  bind m k w = Some r ->
  exists x w', m w = Some (x, w') /\ k x w' = Some r.
Proof.
  unfold bind. destruct (m w) as [[x w']|]; [|discriminate].
  intros H. exists x, w'. split; [reflexivity|exact H].
Qed.

(** *** shared_ptr *)

Lemma make_shared_eq w p :
  make_shared p w =
    Some (fresh (dom (stores w)),
          World (<[fresh (dom (stores w)) := SharedBlock 1 p]> (stores w)) (deleted w)).
Proof. reflexivity. Qed.

Lemma sp_block_eq w a b :
  stores w !! a = Some b -> sp_block a w = Some (b, w).
Proof. unfold sp_block. intros ->. reflexivity. Qed.

Lemma sp_use_count_eq w a b :
  stores w !! a = Some b -> sp_use_count a w = Some (use_count b, w).
Proof.
  intros H. unfold sp_use_count. rewrite (bind_eq _ _ _ _ _ (sp_block_eq _ _ _ H)).
  reflexivity.
Qed.

Lemma sp_get_eq w a b :
  stores w !! a = Some b -> sp_get a w = Some (obj b, w).
Proof.
  intros H. unfold sp_get. rewrite (bind_eq _ _ _ _ _ (sp_block_eq _ _ _ H)).
  reflexivity.
Qed.

Lemma sp_set_eq w a b p :
  stores w !! a = Some b ->
  sp_set a p w =
    Some (tt, World (<[a := SharedBlock (use_count b) p]> (stores w)) (deleted w)).
Proof.
  intros H. unfold sp_set. rewrite (bind_eq _ _ _ _ _ (sp_block_eq _ _ _ H)).
  reflexivity.
Qed.

Lemma sp_acquire_eq w a b :
  stores w !! a = Some b ->
  sp_acquire a w =
    Some (tt, World (<[a := SharedBlock (Pos.succ (use_count b)) (obj b)]> (stores w))
                    (deleted w)).
Proof.
  intros H. unfold sp_acquire. rewrite (bind_eq _ _ _ _ _ (sp_block_eq _ _ _ H)).
  reflexivity.
Qed.

Lemma sp_release_last w a b :
  stores w !! a = Some b -> use_count b = 1%positive ->
  sp_release T_is_pointer a w =
    Some (tt, World (delete a (stores w))
                    (deleted w ++ ListPrivate_deletes T_is_pointer (obj b))).
Proof.
  intros H Hn. unfold sp_release. rewrite (bind_eq _ _ _ _ _ (sp_block_eq _ _ _ H)).
  rewrite Hn. reflexivity.
Qed.

Lemma sp_release_shared w a b :
  stores w !! a = Some b -> use_count b <> 1%positive ->
  sp_release T_is_pointer a w =
    Some (tt, World (<[a := SharedBlock (Pos.pred (use_count b)) (obj b)]> (stores w))
                    (deleted w)).
Proof.
  intros H Hn. unfold sp_release. rewrite (bind_eq _ _ _ _ _ (sp_block_eq _ _ _ H)).
  destruct (Pos.eqb_spec (use_count b) 1) as [E|_]; [contradiction|reflexivity].
Qed.

Lemma elements_eq w l b :
  stores w !! d l = Some b -> elements l w = Some (ListPrivate.list (obj b), w).
Proof.
  intros H. unfold elements. rewrite (bind_eq _ _ _ _ _ (sp_get_eq _ _ _ H)).
  reflexivity.
Qed.

Lemma set_elements_eq w l b xs :
  stores w !! d l = Some b ->
  set_elements l xs w =
    Some (tt, World (<[d l := SharedBlock (use_count b)
                                (ListPrivate.mk xs (ListPrivate.autoDelete (obj b)))]>
                       (stores w))
                    (deleted w)).
Proof.
  intros H. unfold set_elements. rewrite (bind_eq _ _ _ _ _ (sp_get_eq _ _ _ H)).
  apply sp_set_eq, H.
Qed.

Lemma fresh_not_live w a b :
  stores w !! a = Some b -> fresh (dom (stores w)) <> a.
Proof.
  intros H E. apply (is_fresh (dom (stores w))). rewrite E.
  apply elem_of_dom. eauto.
Qed.

Lemma fresh_lookup w : stores w !! fresh (dom (stores w)) = None.
Proof. apply not_elem_of_dom, is_fresh. Qed.

Lemma ListPrivate_clear_eq w a b :
  stores w !! a = Some b ->
  ListPrivate_clear T_is_pointer a w =
    Some (tt, World (<[a := SharedBlock (use_count b)
                              (ListPrivate.mk [] (ListPrivate.autoDelete (obj b)))]>
                       (stores w))
                    (deleted w ++ ListPrivate_deletes T_is_pointer (obj b))).
Proof.
  intros H. unfold ListPrivate_clear.
  rewrite (bind_eq _ _ _ _ _ (sp_get_eq _ _ _ H)).
  erewrite bind_eq by reflexivity.
  rewrite (sp_set_eq _ _ b) by exact H. reflexivity.
Qed.

(** *** detach *)

Lemma detach_sole w l b :
  stores w !! d l = Some b -> use_count b = 1%positive ->
  detach T_is_pointer l w = Some (l, w).
Proof.
  intros H Hn. unfold detach.
  rewrite (bind_eq _ _ _ _ _ (sp_use_count_eq _ _ _ H)), Hn. reflexivity.
Qed.

Lemma detach_shared w l b :
  stores w !! d l = Some b -> use_count b <> 1%positive ->
  detach T_is_pointer l w =
    Some (MkList (fresh (dom (stores w))), detached w l b).
Proof.
  intros H Hn. unfold detach.
  rewrite (bind_eq _ _ _ _ _ (sp_use_count_eq _ _ _ H)).
  destruct (Pos.ltb_spec 1 (use_count b)) as [_|Hle]; [|lia].
  rewrite (bind_eq _ _ _ _ _ (sp_get_eq _ _ _ H)).
  rewrite (bind_eq _ _ _ _ _ (make_shared_eq _ _)).
  erewrite bind_eq; [reflexivity|].
  rewrite (sp_release_shared _ _ b); [reflexivity| |exact Hn].
  simpl. rewrite lookup_insert_ne; [exact H|].
  eapply fresh_not_live, H.
Qed.

(** C3, as amended. A list whose store has more than one owner gets, by
    [detach()], a new store at an address not in use before, owned once,
    holding a copy of the element sequence and the flag [autoDelete] reset
    to [false]; the old store keeps its elements and its flag and loses one
    owner, every other store is as before, and no pointee is deleted. A
    list that is the only owner of its store is left as it is, and so is
    the world. *)
Theorem detach_spec w l b :
  stores w !! d l = Some b ->
  (use_count b = 1%positive -> detach T_is_pointer l w = Some (l, w)) /\
  ((1 < use_count b)%positive ->
   exists a w',
     detach T_is_pointer l w = Some (MkList a, w') /\
     stores w !! a = None /\
     stores w' !! a =
       Some (SharedBlock 1 (ListPrivate.mk (ListPrivate.list (obj b)) false)) /\
     stores w' !! d l = Some (SharedBlock (Pos.pred (use_count b)) (obj b)) /\
     (forall a', a' <> a -> a' <> d l -> stores w' !! a' = stores w !! a') /\
     deleted w' = deleted w).
Proof.
  intros H. split.
  - intros Hn. exact (detach_sole _ _ _ H Hn).
  - intros Hn.
    assert (Hne : use_count b <> 1%positive) by lia.
    exists (fresh (dom (stores w))), (detached w l b).
    split; [exact (detach_shared _ _ _ H Hne)|].
    split; [apply fresh_lookup|].
    pose proof (fresh_not_live _ _ _ H) as Hfr.
    unfold detached; simpl. repeat split.
    + rewrite lookup_insert_ne by congruence. apply lookup_insert_eq.
    + apply lookup_insert_eq.
    + intros a' Ha1 Ha2. rewrite !lookup_insert_ne by congruence. reflexivity.
Qed.

(** *** swap *)

(** C8. [swap] never fails and leaves the world as it is: no store is
    allocated, copied or freed and no number of owners changes; the two
    lists exchange their handles. [A.swap(B)] followed by [B.swap(A)]
    gives both lists their first handle back. *)
Theorem swap_exchanges_handles w (A B : List) :
  swap A B w = Some ((B, A), w) /\
  ('(A1, B1) <~ swap A B ;;
   '(B2, A2) <~ swap B1 A1 ;;
   ret (A2, B2)) w = Some ((A, B), w).
Proof. destruct A, B. split; reflexivity. Qed.

(** *** size *)

(** C10. [size()] is the length of the element sequence reduced modulo
    [2^32], and the length itself when that is below [2^32]; the world is
    not changed. *)
Theorem size_truncates w l b :
  stores w !! d l = Some b ->
  let n := Z.of_nat (length (ListPrivate.list (obj b))) in
  size l w = Some ((n mod 2 ^ 32)%Z, w) /\
  ((n < 2 ^ 32)%Z -> size l w = Some (n, w)).
Proof.
  intros H n.
  assert (E : size l w = Some ((n mod 2 ^ 32)%Z, w)).
  { unfold size. rewrite (bind_eq _ _ _ _ _ (elements_eq _ _ _ H)). reflexivity. }
  split; [exact E|].
  intros Hlt. rewrite E, Z.mod_small; [reflexivity|]. subst n. lia.
Qed.

(** *** setAutoDelete and autoDelete *)

Lemma setAutoDelete_sole w l b flg :
  stores w !! d l = Some b -> use_count b = 1%positive ->
  setAutoDelete T_is_pointer l flg w =
    Some (l, World (<[d l := SharedBlock 1
                               (ListPrivate.mk (ListPrivate.list (obj b)) flg)]>
                      (stores w))
                   (deleted w)).
Proof.
  intros H Hn. unfold setAutoDelete.
  rewrite (bind_eq _ _ _ _ _ (detach_sole _ _ _ H Hn)).
  rewrite (bind_eq _ _ _ _ _ (sp_get_eq _ _ _ H)).
  rewrite (bind_eq _ _ _ _ _ (sp_set_eq _ _ _ _ H)), Hn. reflexivity.
Qed.

Lemma detached_lookup_new w l b :
  stores w !! d l = Some b ->
  stores (detached w l b) !! fresh (dom (stores w)) =
    Some (SharedBlock 1 (ListPrivate.mk (ListPrivate.list (obj b)) false)).
Proof.
  intros H. unfold detached; simpl.
  rewrite lookup_insert_ne by (pose proof (fresh_not_live _ _ _ H); congruence).
  apply lookup_insert_eq.
Qed.

(** What [detach()] guarantees whichever branch it takes: the list is then
    the only owner of a store that holds the same elements. *)
Lemma detach_post w l b :
  stores w !! d l = Some b ->
  exists l' w' b',
    detach T_is_pointer l w = Some (l', w') /\
    stores w' !! d l' = Some b' /\
    use_count b' = 1%positive /\
    ListPrivate.list (obj b') = ListPrivate.list (obj b) /\
    deleted w' = deleted w /\
    (use_count b = 1%positive -> l' = l /\ w' = w /\ b' = b) /\
    (use_count b <> 1%positive ->
       l' = MkList (fresh (dom (stores w))) /\ w' = detached w l b /\
       ListPrivate.autoDelete (obj b') = false).
Proof.
  intros H. destruct (decide (use_count b = 1%positive)) as [Hn|Hn].
  - exists l, w, b. rewrite (detach_sole _ _ _ H Hn). repeat split; tauto.
  - eexists _, _, _. rewrite (detach_shared _ _ _ H Hn).
    split; [reflexivity|]. split; [apply (detached_lookup_new _ _ _ H)|].
    simpl. repeat split; tauto.
Qed.

(** C9. For either kind of element type, [setAutoDelete(flag)] succeeds on
    a live list and [autoDelete()] then returns [flag]; [setAutoDelete]
    deletes nothing, and when [T] is not a pointer type a [clear()] that
    follows deletes nothing either, whatever the flag. *)
Theorem autoDelete_after_setAutoDelete w l b flg :
  stores w !! d l = Some b ->
  exists l' w',
    setAutoDelete T_is_pointer l flg w = Some (l', w') /\
    autoDelete l' w' = Some (flg, w') /\
    deleted w' = deleted w /\
    (T_is_pointer = false ->
     exists l'' w'',
       clear T_is_pointer l' w' = Some (l'', w'') /\
       deleted w'' = deleted w /\
       autoDelete l'' w'' = Some (flg, w'')).
Proof.
  intros H.
  destruct (detach_post _ _ _ H) as (l1 & w1 & b1 & Hd & H1 & Hn1 & _ & Hdel & _).
  set (w2 := World (<[d l1 := SharedBlock 1
                        (ListPrivate.mk (ListPrivate.list (obj b1)) flg)]>
                      (stores w1)) (deleted w1)).
  assert (Hset : setAutoDelete T_is_pointer l flg w = Some (l1, w2)).
  { unfold setAutoDelete. rewrite (bind_eq _ _ _ _ _ Hd).
    rewrite (bind_eq _ _ _ _ _ (sp_get_eq _ _ _ H1)).
    rewrite (bind_eq _ _ _ _ _ (sp_set_eq _ _ _ _ H1)), Hn1. reflexivity. }
  assert (H2 : stores w2 !! d l1 =
               Some (SharedBlock 1 (ListPrivate.mk (ListPrivate.list (obj b1)) flg))).
  { subst w2; simpl. apply lookup_insert_eq. }
  assert (Hget : forall w3 l3 b3, stores w3 !! d l3 = Some b3 ->
            autoDelete l3 w3 = Some (ListPrivate.autoDelete (obj b3), w3)).
  { intros w3 l3 b3 H3. unfold autoDelete.
    rewrite (bind_eq _ _ _ _ _ (sp_get_eq _ _ _ H3)). reflexivity. }
  exists l1, w2. split; [exact Hset|].
  split; [exact (Hget _ _ _ H2)|].
  split; [exact Hdel|].
  intros Hptr.
  eexists l1, _. split.
  - unfold clear. rewrite (bind_eq _ _ _ _ _ (detach_sole _ _ _ H2 eq_refl)).
    rewrite (bind_eq _ _ _ _ _ (ListPrivate_clear_eq _ _ _ H2)). reflexivity.
  - simpl. unfold ListPrivate_deletes. rewrite Hptr. simpl.
    rewrite app_nil_r. split; [exact Hdel|].
    rewrite (Hget _ _ (SharedBlock 1 (ListPrivate.mk [] flg)));
      [reflexivity|]. simpl. apply lookup_insert_eq.
Qed.

(** *** erase *)

Lemma list_erase_at_delete (i : nat) (xs : list T) :
  list_erase_at i xs = delete i xs.
Proof. unfold list_erase_at. symmetry. apply delete_take_drop. Qed.

(** C7. For a position [it] of the list's own store that can be
    dereferenced (so the list is not empty), [erase(it)] succeeds without a
    detach: no store is allocated, the list still refers to the same store
    and the store has as many owners as before. Exactly the element at
    [it] is removed: the sequence is one shorter, the elements before the
    position stay and those after it move up by one. The position
    returned is the one of the element that followed the removed one (the
    end of the sequence when there was none). *)
Theorem erase_removes_one w l b it :
  stores w !! d l = Some b ->
  it_store it = d l ->
  it_pos it < length (ListPrivate.list (obj b)) ->
  let xs := ListPrivate.list (obj b) in
  let i := it_pos it in
  exists w' xs',
    erase l it w = Some (MkIterator (d l) i, w') /\
    stores w' =
      <[d l := SharedBlock (use_count b)
                 (ListPrivate.mk xs' (ListPrivate.autoDelete (obj b)))]> (stores w) /\
    deleted w' = deleted w /\
    owners w' l = owners w l /\
    contents w' l = Some xs' /\
    S (length xs') = length xs /\
    (forall j, j < i -> xs' !! j = xs !! j) /\
    (forall j, i <= j -> xs' !! j = xs !! S j).
Proof.
  intros H Hst Hlt xs i.
  eexists _, (delete i xs). split.
  - unfold erase. rewrite (bind_eq _ _ _ _ _ (elements_eq _ _ _ H)).
    rewrite bool_decide_true by exact Hst.
    destruct (Nat.ltb_spec (it_pos it) (length (ListPrivate.list (obj b))))
      as [_|Hge]; [|lia].
    simpl. rewrite (bind_eq _ _ _ _ _ (set_elements_eq _ _ _ _ H)).
    rewrite list_erase_at_delete. reflexivity.
  - simpl. unfold owners, contents; simpl. rewrite lookup_insert_eq, H. simpl.
    repeat split.
    + rewrite length_delete by (apply lookup_lt_is_Some; exact Hlt).
      subst xs. lia.
    + intros j Hj. apply list_lookup_delete_lt, Hj.
    + intros j Hj. apply list_lookup_delete_ge, Hj.
Qed.

(** *** Assignment of a braced list *)

(** C6. [l = {init...}] succeeds on a live list. Afterwards the list
    refers to a store at an address that was not in use before, owned once,
    holding exactly [init], and whose flag [autoDelete] is the one the list
    had before the assignment. *)
Theorem assign_init_fresh_store w l b init :
  stores w !! d l = Some b ->
  exists a w',
    assign_init T_is_pointer l init w = Some (MkList a, w') /\
    stores w !! a = None /\
    stores w' !! a =
      Some (SharedBlock 1 (ListPrivate.mk init (ListPrivate.autoDelete (obj b)))).
Proof.
  intros H.
  set (a := fresh (dom (stores w))).
  assert (Hne : a <> d l) by exact (fresh_not_live _ _ _ H).
  assert (Hget : autoDelete l w = Some (ListPrivate.autoDelete (obj b), w)).
  { unfold autoDelete. rewrite (bind_eq _ _ _ _ _ (sp_get_eq _ _ _ H)). reflexivity. }
  assert (Hinit : List_init init w =
            Some (MkList a, World (<[a := SharedBlock 1 (ListPrivate.mk init false)]> (stores w))
                                  (deleted w))) by reflexivity.
  assert (Hstep : forall w2,
            sp_release T_is_pointer (d l)
              (World (<[a := SharedBlock 1 (ListPrivate.mk init false)]> (stores w))
                     (deleted w)) = Some (tt, w2) ->
            stores w2 !! a = Some (SharedBlock 1 (ListPrivate.mk init false)) ->
            exists w',
              assign_init T_is_pointer l init w = Some (MkList a, w') /\
              stores w' !! a =
                Some (SharedBlock 1 (ListPrivate.mk init (ListPrivate.autoDelete (obj b))))).
  { intros w2 Hrel Ha. eexists. split.
    - unfold assign_init.
      rewrite (bind_eq _ _ _ _ _ Hget), (bind_eq _ _ _ _ _ Hinit).
      erewrite (bind_eq (swap _ _)) by reflexivity.
      unfold List_destroy. simpl d.
      rewrite (bind_eq _ _ _ _ _ Hrel).
      apply (setAutoDelete_sole w2 (MkList a) _ _ Ha eq_refl).
    - simpl. apply lookup_insert_eq. }
  exists a. 
  assert (Hold : stores (World (<[a := SharedBlock 1 (ListPrivate.mk init false)]> (stores w))
                               (deleted w)) !! d l = Some b).
  { simpl. rewrite lookup_insert_ne by exact Hne. exact H. }
  destruct (decide (use_count b = 1%positive)) as [Hn|Hn].
  - destruct (Hstep _ (sp_release_last _ _ _ Hold Hn)) as (w' & E1 & E2).
    { simpl. rewrite lookup_delete_ne by congruence. apply lookup_insert_eq. }
    exists w'. split; [exact E1|]. split; [apply fresh_lookup|exact E2].
  - destruct (Hstep _ (sp_release_shared _ _ _ Hold Hn)) as (w' & E1 & E2).
    { simpl. rewrite lookup_insert_ne by congruence. apply lookup_insert_eq. }
    exists w'. split; [exact E1|]. split; [apply fresh_lookup|exact E2].
Qed.

(** *** Equality *)

Lemma std_list_eq_Forall2 (xs ys : list T) :
  std_list_eq T_eq xs ys = true <-> Forall2 (fun x y => T_eq x y = true) xs ys.
Proof.
  revert ys. induction xs as [|x xs IH]; intros [|y ys]; simpl.
  - split; [constructor|reflexivity].
  - split; [discriminate|inversion 1].
  - split; [discriminate|inversion 1].
  - rewrite andb_true_iff, IH. split.
    + intros [Hx Hr]. constructor; assumption.
    + inversion 1; subst. split; assumption.
Qed.

Lemma op_eq_run w (A B : List) bA bB :
  stores w !! d A = Some bA ->
  stores w !! d B = Some bB ->
  op_eq T_eq A B w =
    Some (std_list_eq T_eq (ListPrivate.list (obj bA)) (ListPrivate.list (obj bB)), w).
Proof.
  intros HA HB. unfold op_eq.
  rewrite (bind_eq _ _ _ _ _ (elements_eq _ _ _ HA)).
  rewrite (bind_eq _ _ _ _ _ (elements_eq _ _ _ HB)). reflexivity.
Qed.

Lemma op_ne_run w (A B : List) bA bB :
  stores w !! d A = Some bA ->
  stores w !! d B = Some bB ->
  op_ne T_eq A B w =
    Some (negb (std_list_eq T_eq (ListPrivate.list (obj bA))
                            (ListPrivate.list (obj bB))), w).
Proof.
  intros HA HB. unfold op_ne.
  rewrite (bind_eq _ _ _ _ _ (elements_eq _ _ _ HA)).
  rewrite (bind_eq _ _ _ _ _ (elements_eq _ _ _ HB)). reflexivity.
Qed.

(** C5. On live lists [A == B] and [A != B] succeed and change nothing;
    [A == B] is true exactly when the two element sequences have the same
    length and are pairwise equal by [operator==] of the elements, in
    order, and [A != B] is its negation. Nothing is asked of the stores:
    the two lists may share one or not. *)
Theorem op_eq_structural w (A B : List) bA bB :
  stores w !! d A = Some bA ->
  stores w !! d B = Some bB ->
  exists r,
    op_eq T_eq A B w = Some (r, w) /\
    op_ne T_eq A B w = Some (negb r, w) /\
    (r = true <->
     Forall2 (fun x y => T_eq x y = true)
             (ListPrivate.list (obj bA)) (ListPrivate.list (obj bB))).
Proof.
  intros HA HB.
  exists (std_list_eq T_eq (ListPrivate.list (obj bA)) (ListPrivate.list (obj bB))).
  split; [exact (op_eq_run _ _ _ _ _ HA HB)|].
  split; [exact (op_ne_run _ _ _ _ _ HA HB)|].
  apply std_list_eq_Forall2.
Qed.

(** *** append *)

Lemma append_eq w l b x :
  stores w !! d l = Some b ->
  exists l' w' b',
    detach T_is_pointer l w = Some (l', w') /\
    stores w' !! d l' = Some b' /\
    use_count b' = 1%positive /\
    ListPrivate.list (obj b') = ListPrivate.list (obj b) /\
    append T_is_pointer l x w =
      Some (l', World (<[d l' := SharedBlock 1
                                   (ListPrivate.mk (ListPrivate.list (obj b) ++ [x])
                                                   (ListPrivate.autoDelete (obj b')))]>
                         (stores w'))
                      (deleted w')).
Proof.
  intros H.
  destruct (detach_post _ _ _ H) as (l1 & w1 & b1 & Hd & H1 & Hn1 & Hxs & _).
  exists l1, w1, b1. repeat (split; [assumption|]).
  unfold append. rewrite (bind_eq _ _ _ _ _ Hd).
  rewrite (bind_eq _ _ _ _ _ (elements_eq _ _ _ H1)).
  rewrite (bind_eq _ _ _ _ _ (set_elements_eq _ _ _ _ H1)), Hn1, Hxs.
  reflexivity.
Qed.

(** Appending the elements of [xs] one by one to a list that owns its
    store alone: the list keeps its store, which then holds the former
    elements followed by [xs]; no other store is touched. *)
Lemma append_each_sole (xs : list T) : forall w l b,
  stores w !! d l = Some b -> use_count b = 1%positive ->
  exists w',
    append_each T_is_pointer l xs w = Some (l, w') /\
    stores w' !! d l =
      Some (SharedBlock 1 (ListPrivate.mk (ListPrivate.list (obj b) ++ xs)
                                          (ListPrivate.autoDelete (obj b)))) /\
    (forall a, a <> d l -> stores w' !! a = stores w !! a).
Proof.
  induction xs as [|x xs IH]; intros w l b H Hn.
  - exists w. split; [reflexivity|]. rewrite app_nil_r. split; [|reflexivity].
    rewrite H. destruct b as [n [ys f]]. simpl in *. subst n. reflexivity.
  - destruct (append_eq w l b x H) as (l1 & w1 & b1 & Hd & H1 & _ & _ & Happ).
    rewrite (detach_sole _ _ _ H Hn) in Hd. injection Hd as <- <-.
    rewrite H in H1. injection H1 as <-.
    match type of Happ with _ = Some (_, ?w1) =>
      destruct (IH w1 l _ (lookup_insert_eq _ _ _) eq_refl) as (w' & E & Hl & Ho)
    end.
    exists w'. split; [|split].
    + simpl. rewrite (bind_eq _ _ _ _ _ Happ). exact E.
    + rewrite Hl. simpl. rewrite <- app_assoc. reflexivity.
    + intros a Ha. rewrite (Ho a Ha). simpl. apply lookup_insert_ne. congruence.
Qed.

(** Structural equality between lists built in two ways: one by appending
    to an empty list in a loop, the other from a braced list. They are in
    different stores and compare equal as soon as their elements do. *)
Lemma op_eq_across_constructions w (xs ys : list T) :
  Forall2 (fun x y => T_eq x y = true) xs ys ->
  exists A B w',
    (A <~ List_new ;;
     A <~ append_each T_is_pointer A xs ;;
     B <~ List_init ys ;;
     ret (A, B)) w = Some ((A, B), w') /\
    d A <> d B /\
    op_eq T_eq A B w' = Some (true, w') /\
    op_ne T_eq A B w' = Some (false, w').
Proof.
  intros Hxy.
  set (a := fresh (dom (stores w))).
  set (w1 := World (<[a := SharedBlock 1 (ListPrivate.mk [] false)]> (stores w)) (deleted w)).
  assert (Hnew : List_new w = Some (MkList a, w1)) by reflexivity.
  destruct (append_each_sole xs w1 (MkList a) _ (lookup_insert_eq _ _ _) eq_refl)
    as (w2 & Happ & HA & _).
  simpl in HA.
  set (a2 := fresh (dom (stores w2))).
  set (w3 := World (<[a2 := SharedBlock 1 (ListPrivate.mk ys false)]> (stores w2)) (deleted w2)).
  assert (Hne : a2 <> a) by exact (fresh_not_live w2 a _ HA).
  exists (MkList a), (MkList a2), w3.
  assert (HA3 : stores w3 !! a = Some (SharedBlock 1 (ListPrivate.mk xs false))).
  { simpl. rewrite lookup_insert_ne by exact Hne. exact HA. }
  assert (HB3 : stores w3 !! a2 = Some (SharedBlock 1 (ListPrivate.mk ys false))).
  { simpl. apply lookup_insert_eq. }
  pose proof (op_eq_run w3 (MkList a) (MkList a2) _ _ HA3 HB3) as Heq.
  pose proof (op_ne_run w3 (MkList a) (MkList a2) _ _ HA3 HB3) as Hneq.
  simpl in Heq, Hneq.
  rewrite (proj2 (std_list_eq_Forall2 xs ys) Hxy) in Heq, Hneq.
  split; [|split; [simpl; congruence|split; assumption]].
  rewrite (bind_eq _ _ _ _ _ Hnew), (bind_eq _ _ _ _ _ Happ). reflexivity.
Qed.

(** *** Copies *)

Lemma succ_not_1 (n : positive) : Pos.succ n <> 1%positive.
Proof. lia. Qed.

(** Either way of copying leaves the copy on the store of the original,
    which then has more than one owner and the same contents. *)
Lemma make_copy_shares w (A : List) b r :
  stores w !! d A = Some b ->
  copy_target_ok w A r ->
  exists w1 m,
    make_copy T_is_pointer r A w = Some (MkList (d A), w1) /\
    stores w1 !! d A = Some (SharedBlock m (obj b)) /\
    m <> 1%positive /\
    (r = ByConstruction -> m = Pos.succ (use_count b)).
Proof.
  intros H Hr. destruct r as [|B]; simpl in *.
  - eexists _, _. split; [|split; [|split]].
    + unfold List_copy. rewrite (bind_eq _ _ _ _ _ (sp_acquire_eq _ _ _ H)). reflexivity.
    + simpl. apply lookup_insert_eq.
    + apply succ_not_1.
    + reflexivity.
  - destruct Hr as (bB & HB & Hsh).
    unfold assign. rewrite (bind_eq _ _ _ _ _ (sp_acquire_eq _ _ _ H)).
    destruct (decide (d B = d A)) as [E|E].
    + rewrite E in HB. rewrite H in HB. injection HB as <-.
      eexists _, _. split; [|split; [|split]].
      * erewrite bind_eq; [reflexivity|]. rewrite E.
        apply sp_release_shared; [simpl; apply lookup_insert_eq|]. simpl. apply succ_not_1.
      * simpl. apply lookup_insert_eq.
      * simpl. rewrite Pos.pred_succ. exact (Hsh E).
      * discriminate.
    + destruct (decide (use_count bB = 1%positive)) as [Hn|Hn].
      * eexists _, _. split; [|split; [|split]].
        -- erewrite bind_eq; [reflexivity|].
           apply (sp_release_last _ _ bB); [|exact Hn].
           simpl. rewrite lookup_insert_ne by congruence. exact HB.
        -- simpl. rewrite lookup_delete_ne by exact E. apply lookup_insert_eq.
        -- apply succ_not_1.
        -- discriminate.
      * eexists _, _. split; [|split; [|split]].
        -- erewrite bind_eq; [reflexivity|].
           apply (sp_release_shared _ _ bB); [|exact Hn].
           simpl. rewrite lookup_insert_ne by congruence. exact HB.
        -- simpl. rewrite lookup_insert_ne by exact E. apply lookup_insert_eq.
        -- apply succ_not_1.
        -- discriminate.
Qed.

(** [append] on a list whose store is shared: the list moves to a new
    store with the elements followed by [x]; the old store keeps its
    contents and loses one owner. *)
Lemma append_shared w l b x :
  stores w !! d l = Some b -> use_count b <> 1%positive ->
  exists l' w',
    append T_is_pointer l x w = Some (l', w') /\
    d l' <> d l /\
    stores w !! d l' = None /\
    stores w' !! d l' =
      Some (SharedBlock 1 (ListPrivate.mk (ListPrivate.list (obj b) ++ [x]) false)) /\
    stores w' !! d l = Some (SharedBlock (Pos.pred (use_count b)) (obj b)).
Proof.
  intros H Hn.
  destruct (append_eq w l b x H) as (l1 & w1 & b1 & Hd & H1 & _ & _ & Happ).
  rewrite (detach_shared _ _ _ H Hn) in Hd. injection Hd as <- <-.
  simpl d in H1. rewrite (detached_lookup_new _ _ _ H) in H1. injection H1 as <-.
  pose proof (fresh_not_live _ _ _ H) as Hfr.
  eexists _, _. split; [exact Happ|]. simpl.
  split; [exact Hfr|]. split; [apply fresh_lookup|].
  split; [apply lookup_insert_eq|].
  rewrite lookup_insert_ne by exact Hfr. apply lookup_insert_eq.
Qed.

(** C1, as amended. Let [B] be a copy of a live list [A], made by copy
    construction or by copy assignment, and let [B.append(x)] follow. Both
    steps succeed. Right after the copy [B] is on the store of [A];
    after the append [A] has the element sequence it had, [B] is on
    another store, of which it is the only owner, and the sequence of [B]
    is the one of [A] followed by [x]. So [x] occurs in [B], and it occurs
    in [A] exactly when it did before. *)
Theorem copy_then_append w (A : List) b r x :
  stores w !! d A = Some b ->
  copy_target_ok w A r ->
  exists B w1 B' w2,
    make_copy T_is_pointer r A w = Some (B, w1) /\
    d B = d A /\
    append T_is_pointer B x w1 = Some (B', w2) /\
    contents w2 A = Some (ListPrivate.list (obj b)) /\
    d B' <> d A /\
    owners w2 B' = Some 1%positive /\
    contents w2 B' = Some (ListPrivate.list (obj b) ++ [x]) /\
    x ∈ ListPrivate.list (obj b) ++ [x] /\
    (forall xsA, contents w2 A = Some xsA ->
                 (x ∈ xsA <-> x ∈ ListPrivate.list (obj b))).
Proof.
  intros H Hr.
  destruct (make_copy_shares _ _ _ _ H Hr) as (w1 & m & Hc & H1 & Hm & _).
  destruct (append_shared w1 (MkList (d A)) _ x H1 Hm)
    as (B' & w2 & Happ & Hne & _ & HB' & HA').
  simpl in *.
  assert (HcA : contents w2 A = Some (ListPrivate.list (obj b))).
  { unfold contents. rewrite HA'. reflexivity. }
  exists (MkList (d A)), w1, B', w2.
  split; [exact Hc|]. split; [reflexivity|]. split; [exact Happ|].
  split; [exact HcA|]. split; [exact Hne|].
  split; [unfold owners; rewrite HB'; reflexivity|].
  split; [unfold contents; rewrite HB'; reflexivity|].
  split; [apply elem_of_app; right; apply list_elem_of_singleton; reflexivity|].
  intros xsA E. rewrite HcA in E. injection E as <-. reflexivity.
Qed.

(** *** sortedInsert *)

Lemma lower_bound_le value (xs : list T) :
  lower_bound T_lt value xs <= length xs.
Proof.
  induction xs as [|y xs IH]; simpl; [lia|].
  destruct (T_lt y value); simpl; lia.
Qed.

Lemma lower_bound_before value (xs : list T) j y :
  j < lower_bound T_lt value xs -> xs !! j = Some y -> T_lt y value = true.
Proof.
  revert j. induction xs as [|z xs IH]; simpl; intros j Hj Hy; [lia|].
  destruct (T_lt z value) eqn:Ez; [|lia].
  destruct j as [|j]; simpl in Hy.
  - injection Hy as <-. exact Ez.
  - apply (IH j); [lia|exact Hy].
Qed.

Lemma lower_bound_at value (xs : list T) y :
  xs !! lower_bound T_lt value xs = Some y -> T_lt y value = false.
Proof.
  induction xs as [|z xs IH]; simpl; [discriminate|].
  destruct (T_lt z value) eqn:Ez; simpl.
  - exact IH.
  - intros E. injection E as <-. exact Ez.
Qed.

Lemma Iterator_eqb_same a i j :
  Iterator_eqb (MkIterator a i) (MkIterator a j) = Nat.eqb i j.
Proof. unfold Iterator_eqb. simpl. rewrite bool_decide_true; reflexivity. Qed.

Lemma begin_sole w l b :
  stores w !! d l = Some b -> use_count b = 1%positive ->
  begin_ T_is_pointer l w = Some ((l, MkIterator (d l) 0), w).
Proof.
  intros H Hn. unfold begin_.
  rewrite (bind_eq _ _ _ _ _ (detach_sole _ _ _ H Hn)).
  rewrite (bind_eq _ _ _ _ _ (sp_get_eq _ _ _ H)). reflexivity.
Qed.

Lemma end_sole w l b :
  stores w !! d l = Some b -> use_count b = 1%positive ->
  end_ T_is_pointer l w =
    Some ((l, MkIterator (d l) (length (ListPrivate.list (obj b)))), w).
Proof.
  intros H Hn. unfold end_.
  rewrite (bind_eq _ _ _ _ _ (detach_sole _ _ _ H Hn)).
  rewrite (bind_eq _ _ _ _ _ (elements_eq _ _ _ H)). reflexivity.
Qed.

Lemma Iterator_deref_eq w it b x :
  stores w !! it_store it = Some b ->
  ListPrivate.list (obj b) !! it_pos it = Some x ->
  Iterator_deref it w = Some (x, w).
Proof.
  intros H Hx. unfold Iterator_deref.
  rewrite (bind_eq _ _ _ _ _ (sp_get_eq _ _ _ H)), Hx. reflexivity.
Qed.

Lemma insert_eq w l b it item :
  stores w !! d l = Some b ->
  it_store it = d l ->
  it_pos it <= length (ListPrivate.list (obj b)) ->
  insert l it item w =
    Some (MkIterator (d l) (it_pos it),
          World (<[d l := SharedBlock (use_count b)
                            (ListPrivate.mk
                               (list_insert_at (it_pos it) item (ListPrivate.list (obj b)))
                               (ListPrivate.autoDelete (obj b)))]> (stores w))
                (deleted w)).
Proof.
  intros H Hst Hle. unfold insert.
  rewrite (bind_eq _ _ _ _ _ (elements_eq _ _ _ H)).
  rewrite bool_decide_true by exact Hst.
  destruct (Nat.leb_spec (it_pos it) (length (ListPrivate.list (obj b))))
    as [_|Hgt]; [|lia].
  simpl. rewrite (bind_eq _ _ _ _ _ (set_elements_eq _ _ _ _ H)). reflexivity.
Qed.

Lemma sortedInsert_scan_unfold fuel l value it :
  sortedInsert_scan T_lt T_is_pointer fuel l value it =
    ('(l, e) <~ end_ T_is_pointer l ;;
     if Iterator_eqb it e then ret (l, it)
     else
       x <~ Iterator_deref it ;;
       if T_lt x value then
         match fuel with
         | O => undefined
         | S fuel' =>
             sortedInsert_scan T_lt T_is_pointer fuel' l value (Iterator_next it)
         end
       else ret (l, it)).
Proof. destruct fuel; reflexivity. Qed.

(** The loop stops at the first element not less than [value], with
    nothing changed, as soon as the fuel covers what is left to walk. *)
Lemma sortedInsert_scan_sole w l b value :
  stores w !! d l = Some b -> use_count b = 1%positive ->
  forall fuel i,
    i <= length (ListPrivate.list (obj b)) ->
    length (ListPrivate.list (obj b)) - i <= fuel ->
    sortedInsert_scan T_lt T_is_pointer fuel l value (MkIterator (d l) i) w =
      Some ((l, MkIterator (d l)
                  (i + lower_bound T_lt value (drop i (ListPrivate.list (obj b))))), w).
Proof.
  intros H Hn. set (xs := ListPrivate.list (obj b)).
  induction fuel as [|fuel IH]; intros i Hi Hf;
    rewrite sortedInsert_scan_unfold;
    rewrite (bind_eq _ _ _ _ _ (end_sole _ _ _ H Hn));
    rewrite Iterator_eqb_same; fold xs;
    destruct (Nat.eqb_spec i (length xs)) as [E|E].
  - rewrite drop_ge by lia. simpl. rewrite Nat.add_0_r. reflexivity.
  - lia.
  - rewrite drop_ge by lia. simpl. rewrite Nat.add_0_r. reflexivity.
  - destruct (lookup_lt_is_Some_2 xs i) as [x Hx]; [lia|].
    rewrite (bind_eq _ _ _ _ _ (Iterator_deref_eq _ (MkIterator (d l) i) _ _ H Hx)).
    rewrite (drop_S _ _ _ Hx). simpl.
    destruct (T_lt x value).
    + unfold Iterator_next; simpl. rewrite IH by lia.
      rewrite Nat.add_succ_r. reflexivity.
    + rewrite Nat.add_0_r. reflexivity.
Qed.

Lemma sortedInsert_sole w l b value unique :
  stores w !! d l = Some b -> use_count b = 1%positive ->
  let xs := ListPrivate.list (obj b) in
  let i := lower_bound T_lt value xs in
  exists w',
    sortedInsert T_lt T_eq T_is_pointer l value unique w = Some (l, w') /\
    stores w' !! d l =
      Some (SharedBlock 1
              (ListPrivate.mk
                 (if unique && match xs !! i with
                               | Some y => T_eq y value
                               | None => false
                               end
                  then xs else take i xs ++ value :: drop i xs)
                 (ListPrivate.autoDelete (obj b)))).
Proof.
  intros H Hn xs i.
  pose proof (lower_bound_le value xs) as Hle. fold i in Hle.
  assert (Hscan : sortedInsert_scan T_lt T_is_pointer (length xs) l value
                    (MkIterator (d l) 0) w = Some ((l, MkIterator (d l) i), w)).
  { rewrite (sortedInsert_scan_sole _ _ _ value H Hn) by (fold xs; lia). reflexivity. }
  assert (Hins : insert l (MkIterator (d l) i) value w =
            Some (MkIterator (d l) i,
                  World (<[d l := SharedBlock 1
                             (ListPrivate.mk (take i xs ++ value :: drop i xs)
                                             (ListPrivate.autoDelete (obj b)))]> (stores w))
                        (deleted w))).
  { rewrite (insert_eq _ _ b) by (try reflexivity; try exact H; exact Hle).
    rewrite Hn. reflexivity. }
  assert (Hsame : stores w !! d l =
            Some (SharedBlock 1 (ListPrivate.mk xs (ListPrivate.autoDelete (obj b))))).
  { rewrite H. destruct b as [n [ys f]]. simpl in *. subst n. reflexivity. }
  unfold sortedInsert.
  rewrite (bind_eq _ _ _ _ _ (detach_sole _ _ _ H Hn)).
  rewrite (bind_eq _ _ _ _ _ (begin_sole _ _ _ H Hn)); cbv beta iota.
  rewrite (bind_eq _ _ _ _ _ (elements_eq _ _ _ H)); fold xs.
  rewrite (bind_eq _ _ _ _ _ Hscan); cbv beta iota.
  destruct unique; simpl andb.
  - rewrite (bind_eq _ _ _ _ _ (end_sole _ _ _ H Hn)); cbv beta iota.
    rewrite Iterator_eqb_same. fold xs.
    destruct (Nat.eqb_spec i (length xs)) as [E|E]; simpl negb; cbv iota.
    + rewrite (lookup_ge_None_2 xs i) by lia.
      erewrite bind_eq by reflexivity. cbv beta iota.
      rewrite (bind_eq _ _ _ _ _ Hins).
      eexists. split; [reflexivity|]. simpl. apply lookup_insert_eq.
    + destruct (lookup_lt_is_Some_2 xs i) as [x Hx]; [lia|]. rewrite Hx.
      erewrite (bind_eq (bind _ _)); cycle 1.
      { rewrite (bind_eq _ _ _ _ _ (Iterator_deref_eq _ (MkIterator (d l) i) _ _ H Hx)).
        reflexivity. }
      cbv beta. destruct (T_eq x value).
      * exists w. split; [reflexivity|exact Hsame].
      * rewrite (bind_eq _ _ _ _ _ Hins).
        eexists. split; [reflexivity|]. simpl. apply lookup_insert_eq.
  - erewrite bind_eq by reflexivity. cbv beta iota.
    erewrite bind_eq by reflexivity. cbv beta iota.
    rewrite (bind_eq _ _ _ _ _ Hins).
    eexists. split; [reflexivity|]. simpl. apply lookup_insert_eq.
Qed.

(** C4. [sortedInsert(value, unique)] succeeds on every live list, sorted
    or not. With [i] the position of the first element not less than
    [value] (every element before [i] is less than [value], the one at
    [i], if there is one, is not), the list ends up as the only owner of
    its store, and its sequence is the former one when [unique] is set and
    the element at [i] exists and equals [value], and otherwise the former
    one with [value] put in just before position [i]. *)
Theorem sortedInsert_spec w l b value unique :
  stores w !! d l = Some b ->
  let xs := ListPrivate.list (obj b) in
  exists i l' w',
    i <= length xs /\
    (forall j y, j < i -> xs !! j = Some y -> T_lt y value = true) /\
    (forall y, xs !! i = Some y -> T_lt y value = false) /\
    sortedInsert T_lt T_eq T_is_pointer l value unique w = Some (l', w') /\
    owners w' l' = Some 1%positive /\
    contents w' l' =
      Some (if unique && match xs !! i with
                         | Some y => T_eq y value
                         | None => false
                         end
            then xs else take i xs ++ value :: drop i xs).
Proof.
  intros H xs.
  destruct (detach_post _ _ _ H) as (l1 & w1 & b1 & Hd & H1 & Hn1 & Hxs & _).
  destruct (sortedInsert_sole w1 l1 b1 value unique H1 Hn1) as (w' & Hs & Hl).
  rewrite Hxs in Hl. fold xs in Hl.
  exists (lower_bound T_lt value xs), l1, w'.
  split; [apply lower_bound_le|].
  split; [apply lower_bound_before|].
  split; [apply lower_bound_at|].
  split; [|split].
  - destruct (decide (use_count b = 1%positive)) as [Hn|Hn].
    + rewrite (detach_sole _ _ _ H Hn) in Hd. injection Hd as <- <-. exact Hs.
    + rewrite <- Hs. unfold sortedInsert at 1.
      rewrite (bind_eq _ _ _ _ _ Hd).
      unfold sortedInsert.
      rewrite (bind_eq _ _ _ _ _ (detach_sole _ _ _ H1 Hn1)). reflexivity.
  - unfold owners. rewrite Hl. reflexivity.
  - unfold contents. rewrite Hl. reflexivity.
Qed.

(** *** The copy-on-write invariant *)

Lemma hoare_bind {A B} P (m : M T A) Q (k : A -> M T B) R :
  hoare P m Q -> (forall x, hoare (T:=T) (Q x) (k x) R) -> hoare P (bind m k) R.
Proof.
  intros Hm Hk w y w' HP Hb.
  destruct (bind_inv _ _ _ _ Hb) as (x & w1 & E1 & E2).
  exact (Hk x w1 y w' (Hm _ _ _ HP E1) E2).
Qed.

Lemma hoare_ret {A} (P : world T -> Prop) (x : A) (Q : A -> world T -> Prop) :
  (forall w, P w -> Q x w) -> hoare P (ret x) Q.
Proof. intros HPQ w y w' HP E. injection E as <- <-. exact (HPQ _ HP). Qed.

Lemma hoare_weaken {A} (P P' : world T -> Prop) (m : M T A) (Q Q' : A -> world T -> Prop) :
  hoare P' m Q' -> (forall w, P w -> P' w) -> (forall x w, Q' x w -> Q x w) ->
  hoare P m Q.
Proof. intros Hm HP HQ w x w' Hw E. exact (HQ _ _ (Hm _ _ _ (HP _ Hw) E)). Qed.

Lemma same_owners_refl w : same_owners w w.
Proof. intros a. reflexivity. Qed.

Lemma same_owners_trans w1 w2 w3 :
  same_owners w1 w2 -> same_owners w2 w3 -> same_owners w1 w3.
Proof. intros H12 H23 a. rewrite (H23 a). apply H12. Qed.

Lemma quiet_ret {A} (x : A) : quiet (T:=T) (ret x).
Proof. intros w y w' E. injection E as <- <-. apply same_owners_refl. Qed.

Lemma quiet_undefined {A} : quiet (T:=T) (@undefined T A).
Proof. intros w y w' E. discriminate. Qed.

Lemma quiet_bind {A B} (m : M T A) (k : A -> M T B) :
  quiet m -> (forall x, quiet (k x)) -> quiet (bind m k).
Proof.
  intros Hm Hk w y w' Hb.
  destruct (bind_inv _ _ _ _ Hb) as (x & w1 & E1 & E2).
  exact (same_owners_trans _ _ _ (Hm _ _ _ E1) (Hk _ _ _ _ E2)).
Qed.

Lemma quiet_sp_block a : quiet (T:=T) (sp_block a).
Proof.
  intros w y w' E. unfold sp_block in E.
  destruct (stores w !! a); [|discriminate].
  injection E as <- <-. apply same_owners_refl.
Qed.

Lemma quiet_sp_get a : quiet (T:=T) (sp_get a).
Proof. apply quiet_bind; [apply quiet_sp_block|intros; apply quiet_ret]. Qed.

Lemma quiet_sp_set a p : quiet (T:=T) (sp_set a p).
Proof.
  intros w y w' E. unfold sp_set in E.
  destruct (bind_inv _ _ _ _ E) as (b & w1 & E1 & E2).
  unfold sp_block in E1. destruct (stores w !! a) as [b0|] eqn:Hb; [|discriminate].
  injection E1 as <- <-. injection E2 as <- <-.
  intros a'. simpl. destruct (decide (a = a')) as [<-|Hne].
  - rewrite lookup_insert_eq, Hb. reflexivity.
  - rewrite lookup_insert_ne by exact Hne. reflexivity.
Qed.

Lemma quiet_delete_all xs : quiet (T:=T) (delete_all xs).
Proof. intros w y w' E. injection E as <- <-. intros a. reflexivity. Qed.

Lemma quiet_elements l : quiet (T:=T) (elements l).
Proof. apply quiet_bind; [apply quiet_sp_get|intros; apply quiet_ret]. Qed.

Lemma quiet_set_elements l xs : quiet (T:=T) (set_elements l xs).
Proof. apply quiet_bind; [apply quiet_sp_get|intros; apply quiet_sp_set]. Qed.

Lemma quiet_ListPrivate_clear a : quiet (T:=T) (ListPrivate_clear T_is_pointer a).
Proof.
  apply quiet_bind; [apply quiet_sp_get|intros p].
  apply quiet_bind; [apply quiet_delete_all|intros; apply quiet_sp_set].
Qed.

Lemma quiet_Iterator_deref it : quiet (T:=T) (Iterator_deref it).
Proof.
  apply quiet_bind; [apply quiet_sp_get|intros p].
  destruct (_ !! _); [apply quiet_ret|apply quiet_undefined].
Qed.

Lemma quiet_insert l it item : quiet (T:=T) (insert l it item).
Proof.
  apply quiet_bind; [apply quiet_elements|intros xs].
  destruct (_ && _); [|apply quiet_undefined].
  apply quiet_bind; [apply quiet_set_elements|intros; apply quiet_ret].
Qed.

Lemma quiet_erase l it : quiet (T:=T) (erase l it).
Proof.
  apply quiet_bind; [apply quiet_elements|intros xs].
  destruct (_ && _); [|apply quiet_undefined].
  apply quiet_bind; [apply quiet_set_elements|intros; apply quiet_ret].
Qed.

(** A quiet computation keeps a sole owner sole. *)
Lemma quiet_keeps_sole {A} (m : M T A) l :
  quiet m -> hoare (T:=T) (sole l) m (fun _ => sole l).
Proof.
  intros Hm w x w' Hs E. unfold sole, owners in *.
  rewrite (Hm _ _ _ E (d l)). exact Hs.
Qed.

(** [detach()] leaves the list as the only owner of its store. *)
Lemma detach_sole_after l :
  hoare (T:=T) (fun _ => True) (detach T_is_pointer l) (fun l' => sole l').
Proof.
  intros w l' w' _ E.
  assert (exists b, stores w !! d l = Some b) as [b H].
  { unfold detach in E. destruct (bind_inv _ _ _ _ E) as (n & w1 & E1 & _).
    unfold sp_use_count in E1. destruct (bind_inv _ _ _ _ E1) as (b & w2 & E2 & _).
    unfold sp_block in E2. destruct (stores w !! d l) as [b0|]; [|discriminate].
    exists b0. reflexivity. }
  destruct (detach_post _ _ _ H) as (l1 & w1 & b1 & Hd & H1 & Hn1 & _).
  rewrite Hd in E. injection E as <- <-.
  unfold sole, owners. rewrite H1. simpl. rewrite Hn1. reflexivity.
Qed.

(** The shape most members have: [detach()], then work on the store that
    changes no number of owners. *)
Lemma detach_then_quiet {A} l (k : List -> M T A) (f : A -> List) :
  (forall l1, hoare (T:=T) (sole l1) (k l1) (fun x => sole (f x))) ->
  hoare (T:=T) (fun _ => True) (bind (detach T_is_pointer l) k) (fun x => sole (f x)).
Proof. intros Hk. eapply hoare_bind; [apply detach_sole_after|exact Hk]. Qed.

Lemma hoare_undefined {A} (P : world T -> Prop) (Q : A -> world T -> Prop) :
  hoare P undefined Q.
Proof. intros w x w' _ E. discriminate. Qed.

Lemma hoare_any {A} (P : world T -> Prop) (m : M T A) :
  hoare P m (fun _ _ => True).
Proof. intros w x w' _ _. exact I. Qed.

Ltac solve_quiet :=
  repeat first
    [ apply quiet_ret | apply quiet_undefined | apply quiet_sp_get
    | apply quiet_sp_set | apply quiet_elements | apply quiet_set_elements
    | apply quiet_ListPrivate_clear | apply quiet_Iterator_deref
    | apply quiet_insert | apply quiet_erase
    | apply quiet_bind; [|intros ?]
    | match goal with
      | |- quiet (match ?x with _ => _ end) => destruct x
      end ].

(** Closes [hoare (sole l) m (fun x => sole (f x))] for a computation [m]
    made of quiet steps that ends by returning [l]. *)
Ltac solve_sole l :=
  repeat first
    [ apply hoare_undefined
    | apply hoare_ret; intros; simpl; assumption
    | eapply hoare_bind;
      [ apply (quiet_keeps_sole _ l); solve [solve_quiet] | intros ?; simpl ]
    | match goal with
      | |- hoare _ (match ?x with _ => _ end) _ => destruct x
      end ].

Lemma begin_sole_after l :
  hoare (T:=T) (fun _ => True) (begin_ T_is_pointer l) (fun x => sole (fst x)).
Proof. apply detach_then_quiet. intros l1. solve_sole l1. Qed.

Lemma end_sole_after l :
  hoare (T:=T) (fun _ => True) (end_ T_is_pointer l) (fun x => sole (fst x)).
Proof. apply detach_then_quiet. intros l1. solve_sole l1. Qed.

Lemma find_sole_after l value :
  hoare (T:=T) (fun _ => True) (find T_eq T_is_pointer l value) (fun x => sole (fst x)).
Proof. apply detach_then_quiet. intros l1. solve_sole l1. Qed.

Lemma front_sole_after l :
  hoare (T:=T) (fun _ => True) (front T_is_pointer l) (fun x => sole (fst x)).
Proof. apply detach_then_quiet. intros l1. solve_sole l1. Qed.

Lemma back_sole_after l :
  hoare (T:=T) (fun _ => True) (back T_is_pointer l) (fun x => sole (fst x)).
Proof. apply detach_then_quiet. intros l1. solve_sole l1. Qed.

Lemma append_sole_after l item :
  hoare (T:=T) (fun _ => True) (append T_is_pointer l item) (fun l' => sole l').
Proof. apply (detach_then_quiet _ _ id). intros l1. solve_sole l1. Qed.

Lemma append_list_sole_after l other :
  hoare (T:=T) (fun _ => True) (append_list T_is_pointer l other) (fun l' => sole l').
Proof. apply (detach_then_quiet _ _ id). intros l1. solve_sole l1. Qed.

Lemma prepend_sole_after l item :
  hoare (T:=T) (fun _ => True) (prepend T_is_pointer l item) (fun l' => sole l').
Proof. apply (detach_then_quiet _ _ id). intros l1. solve_sole l1. Qed.

Lemma prepend_list_sole_after l other :
  hoare (T:=T) (fun _ => True) (prepend_list T_is_pointer l other) (fun l' => sole l').
Proof. apply (detach_then_quiet _ _ id). intros l1. solve_sole l1. Qed.

Lemma clear_sole_after l :
  hoare (T:=T) (fun _ => True) (clear T_is_pointer l) (fun l' => sole l').
Proof. apply (detach_then_quiet _ _ id). intros l1. solve_sole l1. Qed.

Lemma setAutoDelete_sole_after l flg :
  hoare (T:=T) (fun _ => True) (setAutoDelete T_is_pointer l flg) (fun l' => sole l').
Proof. apply (detach_then_quiet _ _ id). intros l1. solve_sole l1. Qed.

Lemma sort_by_sole_after l comp :
  hoare (T:=T) (fun _ => True) (sort_by T_is_pointer l comp) (fun l' => sole l').
Proof. apply (detach_then_quiet _ _ id). intros l1. solve_sole l1. Qed.

Lemma assign_init_sole_after l init :
  hoare (T:=T) (fun _ => True) (assign_init T_is_pointer l init) (fun l' => sole l').
Proof.
  unfold assign_init.
  eapply hoare_bind; [apply hoare_any|intros flg; simpl].
  eapply hoare_bind; [apply hoare_any|intros tmp; simpl].
  eapply hoare_bind; [apply hoare_any|intros [tmp' l']; simpl].
  eapply hoare_bind; [apply hoare_any|intros u; simpl].
  eapply hoare_weaken; [apply setAutoDelete_sole_after|intros; exact I|intros ? ? Hs; exact Hs].
Qed.

Lemma sortedInsert_scan_sole_after value : forall fuel l it,
  hoare (T:=T) (fun _ => True) (sortedInsert_scan T_lt T_is_pointer fuel l value it)
        (fun x => sole (fst x)).
Proof.
  induction fuel as [|fuel IH]; intros l it;
    rewrite sortedInsert_scan_unfold;
    (eapply hoare_bind; [apply end_sole_after|intros [l1 e]; simpl]);
    (destruct (Iterator_eqb it e); [apply hoare_ret; intros ? Hs; exact Hs|]);
    (eapply hoare_bind;
     [apply (quiet_keeps_sole _ l1), quiet_Iterator_deref|intros x; simpl]);
    (destruct (T_lt x value); [|apply hoare_ret; intros ? Hs; exact Hs]).
  - apply hoare_undefined.
  - eapply hoare_weaken; [apply IH|intros; exact I|intros ? ? Hs; exact Hs].
Qed.

Lemma sortedInsert_sole_after l value unique :
  hoare (T:=T) (fun _ => True) (sortedInsert T_lt T_eq T_is_pointer l value unique)
        (fun l' => sole l').
Proof.
  unfold sortedInsert.
  eapply hoare_bind; [apply hoare_any|intros l1; simpl].
  eapply hoare_bind; [apply hoare_any|intros [l2 it2]; simpl].
  eapply hoare_bind; [apply hoare_any|intros xs; simpl].
  eapply hoare_bind;
    [eapply hoare_weaken; [apply sortedInsert_scan_sole_after|intros; exact I|intros ? ? Hs; exact Hs]
    |intros [l3 it3]; simpl].
  eapply (hoare_bind _ _ (fun x => sole (fst x))).
  { destruct unique.
    - eapply hoare_weaken; [apply end_sole_after|intros; exact I|intros ? ? Hs; exact Hs].
    - apply hoare_ret; intros ? Hs; exact Hs. }
  intros [l4 e]; simpl.
  eapply hoare_bind.
  { apply (quiet_keeps_sole _ l4).
    destruct (_ && _); solve_quiet. }
  intros stop; simpl. destruct stop; solve_sole l4.
Qed.

(** C2, as amended. When a non-const public member whose body calls
    [detach()] completes ([begin], [end], [sortedInsert], both [append]s,
    both [prepend]s, [clear], [find], [front], [back], [setAutoDelete],
    assignment of a braced list, both [sort]s), the list is the only owner
    of the store its handle refers to. *)
Theorem sole_owner_after_detaching_member (m : mutator T) w l l' w' :
  calls_detach m = true ->
  run T_lt T_eq T_is_pointer m l w = Some (l', w') ->
  sole l' w'.
Proof.
  intros Hc Hrun.
  assert (Hpair : forall (c : M T (List * Iterator)),
            hoare (fun _ => True) c (fun x => sole (fst x)) ->
            hoare (fun _ => True) ('(l, _) <~ c ;; ret l) (fun l' => sole l')).
  { intros c Hcq. eapply hoare_bind; [exact Hcq|].
    intros [l1 it1]; simpl. apply hoare_ret; intros ? Hs; exact Hs. }
  revert Hrun. cut (hoare (fun _ => True) (run T_lt T_eq T_is_pointer m l)
                          (fun l' => sole l')).
  { intros Hh Hrun. exact (Hh _ _ _ I Hrun). }
  destruct m; simpl in Hc; try discriminate; simpl run.
  - apply Hpair, begin_sole_after.
  - apply Hpair, end_sole_after.
  - apply sortedInsert_sole_after.
  - apply append_sole_after.
  - apply append_list_sole_after.
  - apply prepend_sole_after.
  - apply prepend_list_sole_after.
  - apply clear_sole_after.
  - apply Hpair, find_sole_after.
  - apply Hpair, front_sole_after.
  - apply Hpair, back_sole_after.
  - apply setAutoDelete_sole_after.
  - apply assign_init_sole_after.
  - apply sort_by_sole_after.
  - apply sort_by_sole_after.
Qed.

(** The mutable [operator[]] reads the store in place: the world is as
    before, so a store that was shared still is, and the reference
    returned is into the store the list refers to. *)
Lemma index_in_place w l i r w' :
  index l i w = Some (r, w') -> w' = w /\ it_store r = d l.
Proof.
  unfold index. intros E.
  destruct (bind_inv _ _ _ _ E) as (xs & w1 & E1 & E2).
  unfold elements, sp_get, sp_block, bind in E1.
  destruct (stores w !! d l); [|discriminate]. injection E1 as <- <-.
  destruct (Nat.ltb i _); [|discriminate].
  injection E2 as <- <-. split; reflexivity.
Qed.
End Proofs.

(** ** Further properties of the members *)

Section Members.
Context {T : Type}.
Variable T_lt : T -> T -> bool.
Variable T_eq : T -> T -> bool.
Variable T_is_pointer : bool.

Implicit Types (w : world T) (l : List) (b : shared_block T) (a : loc).

Lemma world_eta w : World (stores w) (deleted w) = w.
Proof. destruct w. reflexivity. Qed.

Lemma block_eta b :
  SharedBlock (use_count b)
    (ListPrivate.mk (ListPrivate.list (obj b)) (ListPrivate.autoDelete (obj b))) = b.
Proof. destruct b as [n [xs f]]. reflexivity. Qed.

(** *** Copy construction and destruction *)

(** X1. Copy construction of a live list allocates nothing and copies no
    element: the copy has the handle of the original, the one store gets one
    more owner and keeps its elements and flag, and no other store and no
    pointee is touched. *)
Theorem List_copy_shares w (A : List) b :
  stores w !! d A = Some b ->
  exists w',
    List_copy A w = Some (MkList (d A), w') /\
    stores w' !! d A = Some (SharedBlock (Pos.succ (use_count b)) (obj b)) /\
    (forall a, a <> d A -> stores w' !! a = stores w !! a) /\
    deleted w' = deleted w.
Proof.
  intros H. eexists. split.
  - unfold List_copy. rewrite (bind_eq _ _ _ _ _ (sp_acquire_eq _ _ _ H)). reflexivity.
  - simpl. split; [apply lookup_insert_eq|]. split; [|reflexivity].
    intros a Ha. apply lookup_insert_ne. congruence.
Qed.

(** X2. Making a copy of a live list and destroying the copy leaves the
    world exactly as it was. *)
Theorem List_copy_destroy w (A : List) b :
  stores w !! d A = Some b ->
  (B <~ List_copy A ;; List_destroy T_is_pointer B) w = Some (tt, w).
Proof.
  intros H.
  unfold List_copy.
  rewrite (bind_eq _ _ _ _ _
             (bind_eq _ _ _ _ _ (sp_acquire_eq _ _ _ H))).
  unfold ret, List_destroy. simpl d.
  rewrite (sp_release_shared T_is_pointer _ (d A)
             (SharedBlock (Pos.succ (use_count b)) (obj b)));
    [|simpl; apply lookup_insert_eq|simpl; lia].
  simpl. rewrite Pos.pred_succ, insert_insert_eq.
  destruct b as [n o]; simpl. rewrite (insert_id _ _ _ H).
  rewrite world_eta. reflexivity.
Qed.

(** X3. Destroying a live list. When it is the last owner the store is
    freed, and its members are deleted, each once and in order, exactly when
    [T] is a pointer type and [autoDelete] is set; otherwise nothing is
    deleted. When other owners remain, the store keeps its elements and flag
    with one owner fewer and nothing is deleted. No other store is touched
    in either case. *)
Theorem List_destroy_spec w l b :
  stores w !! d l = Some b ->
  exists w',
    List_destroy T_is_pointer l w = Some (tt, w') /\
    (forall a, a <> d l -> stores w' !! a = stores w !! a) /\
    (use_count b = 1%positive ->
     stores w' !! d l = None /\
     deleted w' =
       deleted w ++ (if T_is_pointer && ListPrivate.autoDelete (obj b)
                     then ListPrivate.list (obj b) else [])) /\
    (use_count b <> 1%positive ->
     stores w' !! d l = Some (SharedBlock (Pos.pred (use_count b)) (obj b)) /\
     deleted w' = deleted w).
Proof.
  intros H. unfold List_destroy.
  destruct (decide (use_count b = 1%positive)) as [Hn|Hn].
  - rewrite (sp_release_last _ _ _ _ H Hn). eexists. split; [reflexivity|].
    simpl. split; [|split].
    + intros a Ha. apply lookup_delete_ne. congruence.
    + intros _. split; [apply lookup_delete_eq|reflexivity].
    + intros Hc. contradiction.
  - rewrite (sp_release_shared _ _ _ _ H Hn). eexists. split; [reflexivity|].
    simpl. split; [|split].
    + intros a Ha. apply lookup_insert_ne. congruence.
    + intros Hc. contradiction.
    + intros _. split; [apply lookup_insert_eq|reflexivity].
Qed.

(** *** Members that detach and then rewrite the sequence *)

(** The common shape of [append], [prepend] and [sort]: [detach()], then
    [d->list] becomes [f] of what it was. *)
Lemma modify_after_detach w l b (f : list T -> list T) :
  stores w !! d l = Some b ->
  exists l1 w1 b1,
    detach T_is_pointer l w = Some (l1, w1) /\
    stores w1 !! d l1 = Some b1 /\
    use_count b1 = 1%positive /\
    ListPrivate.list (obj b1) = ListPrivate.list (obj b) /\
    deleted w1 = deleted w /\
    (use_count b = 1%positive -> l1 = l /\ w1 = w /\ b1 = b) /\
    (use_count b <> 1%positive ->
     l1 = MkList (fresh (dom (stores w))) /\ w1 = detached w l b /\
     ListPrivate.autoDelete (obj b1) = false) /\
    (l <~ detach T_is_pointer l ;;
     xs <~ elements l ;;
     set_elements l (f xs) ;;;
     ret l) w =
      Some (l1, World (<[d l1 := SharedBlock 1
                                   (ListPrivate.mk (f (ListPrivate.list (obj b)))
                                                   (ListPrivate.autoDelete (obj b1)))]>
                         (stores w1))
                      (deleted w1)).
Proof.
  intros H.
  destruct (detach_post T_is_pointer _ _ _ H)
    as (l1 & w1 & b1 & Hd & H1 & Hn1 & Hxs & Hdel & Hsole & Hsh).
  exists l1, w1, b1. repeat (split; [assumption|]).
  rewrite (bind_eq _ _ _ _ _ Hd).
  rewrite (bind_eq _ _ _ _ _ (elements_eq _ _ _ H1)).
  rewrite (bind_eq _ _ _ _ _ (set_elements_eq _ _ _ _ H1)), Hn1, Hxs.
  reflexivity.
Qed.

(** What such a member leaves, seen from the list: it owns its store alone
    and the store holds [f] of the former sequence. *)
Lemma modify_contents w l b (f : list T -> list T) :
  stores w !! d l = Some b ->
  exists l' w',
    (l <~ detach T_is_pointer l ;;
     xs <~ elements l ;;
     set_elements l (f xs) ;;;
     ret l) w = Some (l', w') /\
    (use_count b = 1%positive -> l' = l) /\
    (use_count b <> 1%positive -> stores w !! d l' = None) /\
    stores w' !! d l' =
      Some (SharedBlock 1
              (ListPrivate.mk (f (ListPrivate.list (obj b)))
                 (if Pos.eqb (use_count b) 1
                  then ListPrivate.autoDelete (obj b) else false))) /\
    deleted w' = deleted w.
Proof.
  intros H.
  destruct (modify_after_detach w l b f H)
    as (l1 & w1 & b1 & _ & _ & _ & _ & Hdel & Hsole & Hsh & Hrun).
  eexists _, _. split; [exact Hrun|]. cbn [stores deleted].
  split; [intros Hn; apply (Hsole Hn)|].
  split; [intros Hn; destruct (Hsh Hn) as (-> & _); apply fresh_lookup|].
  split; [|exact Hdel].
  rewrite lookup_insert_eq. do 3 f_equal.
  destruct (Pos.eqb_spec (use_count b) 1) as [Hn|Hn].
  - destruct (Hsole Hn) as (_ & _ & ->). reflexivity.
  - apply (Hsh Hn).
Qed.

(** X4. On a live list with the elements [xs], [prepend(x)] followed by
    [append(y)] succeeds and leaves the list, as the only owner of its
    store, with [x], then [xs], then [y]; on an empty list that is [x, y].
    The second call does not move the list to another store. *)
Theorem prepend_then_append w l b x y :
  stores w !! d l = Some b ->
  exists l1 w1 w2,
    prepend T_is_pointer l x w = Some (l1, w1) /\
    contents w1 l1 = Some (x :: ListPrivate.list (obj b)) /\
    append T_is_pointer l1 y w1 = Some (l1, w2) /\
    contents w2 l1 = Some (x :: ListPrivate.list (obj b) ++ [y]) /\
    owners w2 l1 = Some 1%positive.
Proof.
  intros H.
  destruct (modify_contents w l b (fun xs => x :: xs) H)
    as (l1 & w1 & Hp & _ & _ & H1 & _).
  destruct (modify_contents w1 l1 _ (fun xs => xs ++ [y]) H1)
    as (l2 & w2 & Ha & Hsame & _ & H2 & _).
  pose proof (Hsame eq_refl) as ->. simpl in H2.
  exists l1, w1, w2. split; [exact Hp|].
  split; [unfold contents; rewrite H1; reflexivity|].
  split; [exact Ha|].
  split; [unfold contents; rewrite H2; reflexivity|].
  unfold owners. rewrite H2. reflexivity.
Qed.

Lemma detached_lookup_old w l b :
  stores (detached w l b) !! d l =
    Some (SharedBlock (Pos.pred (use_count b)) (obj b)).
Proof. unfold detached; simpl. apply lookup_insert_eq. Qed.

(** Appending [xs] element by element to a list that owns its store alone
    rewrites that store once and for all: the exact world it leaves. *)
Lemma append_each_world (xs : list T) : forall w l b,
  stores w !! d l = Some b -> use_count b = 1%positive ->
  append_each T_is_pointer l xs w =
    Some (l, World (<[d l := SharedBlock 1
                               (ListPrivate.mk (ListPrivate.list (obj b) ++ xs)
                                               (ListPrivate.autoDelete (obj b)))]>
                      (stores w))
                   (deleted w)).
Proof.
  induction xs as [|x xs IH]; intros w l b H Hn.
  - simpl. rewrite app_nil_r, <- Hn, block_eta, (insert_id _ _ _ H), world_eta.
    reflexivity.
  - destruct (modify_after_detach w l b (fun ys => ys ++ [x]) H)
      as (l1 & w1 & b1 & _ & _ & _ & _ & _ & Hsole & _ & Hrun).
    destruct (Hsole Hn) as (-> & -> & ->).
    simpl. unfold append. rewrite (bind_eq _ _ _ _ _ Hrun).
    erewrite IH; [|simpl; apply lookup_insert_eq|reflexivity].
    simpl. rewrite insert_insert_eq, <- app_assoc. reflexivity.
Qed.

(** X5. Building a list by appending the elements of [xs] one by one to a
    new empty list gives the very list, and the very world, that construction
    from the braced list [xs] gives. *)
Theorem append_each_is_List_init w (xs : list T) :
  (A <~ List_new ;; append_each T_is_pointer A xs) w = List_init xs w.
Proof.
  unfold List_new, List_init.
  rewrite (bind_eq _ _ _ _ _ (bind_eq _ _ _ _ _ (make_shared_eq _ _))).
  rewrite (bind_eq _ _ _ _ _ (make_shared_eq _ _)).
  unfold ret at 1.
  erewrite append_each_world; [|simpl; apply lookup_insert_eq|reflexivity].
  simpl. rewrite insert_insert_eq. reflexivity.
Qed.

(** *** append and prepend of a list *)

(** The common shape of [append(const List<T> &)] and
    [prepend(const List<T> &)], for a list [other] that is another object
    than [*this]: if it is on the same store, that store counts both. *)
Lemma combine_after_detach w l other b bo (g : list T -> list T -> list T) :
  stores w !! d l = Some b ->
  stores w !! d other = Some bo ->
  (d other = d l -> use_count b <> 1%positive) ->
  exists l' w',
    (l <~ detach T_is_pointer l ;;
     xs <~ elements l ;;
     ys <~ elements other ;;
     set_elements l (g xs ys) ;;;
     ret l) w = Some (l', w') /\
    contents w' l' = Some (g (ListPrivate.list (obj b)) (ListPrivate.list (obj bo))) /\
    contents w' other = Some (ListPrivate.list (obj bo)) /\
    owners w' l' = Some 1%positive /\
    deleted w' = deleted w.
Proof.
  intros H Ho Hsh.
  destruct (detach_post T_is_pointer _ _ _ H)
    as (l1 & w1 & b1 & Hd & H1 & Hn1 & Hxs & Hdel & Hsole & Hshared).
  assert (Hother : d l1 <> d other /\
            exists bo1, stores w1 !! d other = Some bo1 /\
                        ListPrivate.list (obj bo1) = ListPrivate.list (obj bo)).
  { destruct (decide (use_count b = 1%positive)) as [Hn|Hn].
    - destruct (Hsole Hn) as (-> & -> & ->).
      split; [intros E; exact (Hsh (eq_sym E) Hn)|].
      exists bo. split; [exact Ho|reflexivity].
    - destruct (Hshared Hn) as (-> & -> & _).
      pose proof (fresh_not_live _ _ _ Ho) as Hfr.
      split; [exact Hfr|]. unfold detached; simpl.
      destruct (decide (d other = d l)) as [E|E].
      + rewrite E, lookup_insert_eq. eexists. split; [reflexivity|].
        simpl. rewrite E, H in Ho. injection Ho as <-. reflexivity.
      + rewrite !lookup_insert_ne by congruence.
        exists bo. split; [exact Ho|reflexivity]. }
  destruct Hother as (Hne & bo1 & Ho1 & Hys).
  eexists l1, _. split.
  - rewrite (bind_eq _ _ _ _ _ Hd).
    rewrite (bind_eq _ _ _ _ _ (elements_eq _ _ _ H1)).
    rewrite (bind_eq _ _ _ _ _ (elements_eq _ _ _ Ho1)).
    rewrite (bind_eq _ _ _ _ _ (set_elements_eq _ _ _ _ H1)). reflexivity.
  - unfold contents, owners; simpl.
    rewrite lookup_insert_eq, lookup_insert_ne, Ho1 by exact Hne. simpl.
    rewrite Hxs, Hys, Hn1. repeat split. exact Hdel.
Qed.

(** X6. [l.append(other)] for live lists that are two objects: it succeeds,
    [l] ends up as the only owner of a store that holds its former elements
    followed by those of [other], in order, and [other] keeps its elements,
    also when the two shared a store before the call. *)
Theorem append_list_spec w l other b bo :
  stores w !! d l = Some b ->
  stores w !! d other = Some bo ->
  (d other = d l -> use_count b <> 1%positive) ->
  exists l' w',
    append_list T_is_pointer l other w = Some (l', w') /\
    contents w' l' = Some (ListPrivate.list (obj b) ++ ListPrivate.list (obj bo)) /\
    contents w' other = Some (ListPrivate.list (obj bo)) /\
    owners w' l' = Some 1%positive /\
    deleted w' = deleted w.
Proof. exact (combine_after_detach w l other b bo (fun xs ys => xs ++ ys)). Qed.

(** X7. [l.prepend(other)] for live lists that are two objects: it
    succeeds, [l] ends up as the only owner of a store that holds the
    elements of [other], in order, followed by its own former elements, and
    [other] keeps its elements. *)
Theorem prepend_list_spec w l other b bo :
  stores w !! d l = Some b ->
  stores w !! d other = Some bo ->
  (d other = d l -> use_count b <> 1%positive) ->
  exists l' w',
    prepend_list T_is_pointer l other w = Some (l', w') /\
    contents w' l' = Some (ListPrivate.list (obj bo) ++ ListPrivate.list (obj b)) /\
    contents w' other = Some (ListPrivate.list (obj bo)) /\
    owners w' l' = Some 1%positive /\
    deleted w' = deleted w.
Proof. exact (combine_after_detach w l other b bo (fun xs ys => ys ++ xs)). Qed.

(** *** clear *)

(** The two cases of [clear()]: a store owned alone, a store shared. *)
Lemma clear_cases w l b :
  stores w !! d l = Some b ->
  exists l' w',
    clear T_is_pointer l w = Some (l', w') /\
    contents w' l' = Some [] /\
    owners w' l' = Some 1%positive /\
    (use_count b = 1%positive ->
     l' = l /\
     flag w' l' = Some (ListPrivate.autoDelete (obj b)) /\
     deleted w' =
       deleted w ++ (if T_is_pointer && ListPrivate.autoDelete (obj b)
                     then ListPrivate.list (obj b) else [])) /\
    (use_count b <> 1%positive ->
     stores w !! d l' = None /\
     stores w' !! d l = Some (SharedBlock (Pos.pred (use_count b)) (obj b)) /\
     flag w' l' = Some false /\
     deleted w' = deleted w).
Proof.
  intros H.
  destruct (detach_post T_is_pointer _ _ _ H)
    as (l1 & w1 & b1 & Hd & H1 & Hn1 & Hxs & Hdel & Hsole & Hshared).
  eexists l1, _. split.
  - unfold clear. rewrite (bind_eq _ _ _ _ _ Hd).
    rewrite (bind_eq _ _ _ _ _ (ListPrivate_clear_eq _ _ _ _ H1)). reflexivity.
  - unfold contents, owners, flag; cbn [stores deleted].
    rewrite lookup_insert_eq. cbn [fmap option_fmap option_map use_count obj
                                   ListPrivate.list ListPrivate.autoDelete].
    split; [reflexivity|]. split; [rewrite Hn1; reflexivity|]. split.
    + intros Hn. destruct (Hsole Hn) as (-> & -> & ->).
      split; [reflexivity|]. split; reflexivity.
    + intros Hn. destruct (Hshared Hn) as (-> & -> & Hf).
      split; [apply fresh_lookup|].
      pose proof (fresh_not_live _ _ _ H) as Hfr.
      split; [rewrite lookup_insert_ne by exact Hfr; apply detached_lookup_old|].
      split; [rewrite Hf; reflexivity|].
      unfold ListPrivate_deletes. rewrite Hf, andb_false_r, app_nil_r. reflexivity.
Qed.

(** X8. [clear()] on a live list succeeds and leaves it empty and the only
    owner of its store. If the list owned its store alone, it keeps the
    store and the flag, and its former members are deleted, each once and in
    order, exactly when [T] is a pointer type and [autoDelete] is set. If the
    store was shared, the list moves to a new store, the other owners keep
    the elements and the flag, and nothing is deleted, whatever the flag. *)
Theorem clear_spec w l b :
  stores w !! d l = Some b ->
  exists l' w',
    clear T_is_pointer l w = Some (l', w') /\
    contents w' l' = Some [] /\
    owners w' l' = Some 1%positive /\
    (use_count b = 1%positive ->
     l' = l /\
     flag w' l' = Some (ListPrivate.autoDelete (obj b)) /\
     deleted w' =
       deleted w ++ (if T_is_pointer && ListPrivate.autoDelete (obj b)
                     then ListPrivate.list (obj b) else [])) /\
    (use_count b <> 1%positive ->
     stores w !! d l' = None /\
     stores w' !! d l = Some (SharedBlock (Pos.pred (use_count b)) (obj b)) /\
     flag w' l' = Some false /\
     deleted w' = deleted w).
Proof.
  intros H.
  destruct (clear_cases w l b H) as (l' & w' & Hc & Hem & Ho & Hsole & Hsh).
  exists l', w'. split; [exact Hc|]. split; [exact Hem|]. split; [exact Ho|].
  split; [exact Hsole|exact Hsh].
Qed.

(** *** find and contains *)

Lemma std_find_le value (xs : list T) : std_find T_eq value xs <= length xs.
Proof.
  induction xs as [|x xs IH]; simpl; [lia|]. destruct (T_eq x value); simpl; lia.
Qed.

Lemma std_find_before value (xs : list T) j y :
  j < std_find T_eq value xs -> xs !! j = Some y -> T_eq y value = false.
Proof.
  revert j. induction xs as [|x xs IH]; simpl; intros j Hj Hy; [lia|].
  destruct (T_eq x value) eqn:Ex; [lia|].
  destruct j as [|j]; simpl in Hy.
  - injection Hy as <-. exact Ex.
  - apply (IH j); [lia|exact Hy].
Qed.

Lemma std_find_at value (xs : list T) y :
  xs !! std_find T_eq value xs = Some y -> T_eq y value = true.
Proof.
  induction xs as [|x xs IH]; simpl; [discriminate|].
  destruct (T_eq x value) eqn:Ex; simpl.
  - intros E. injection E as <-. exact Ex.
  - exact IH.
Qed.

(** X9. On a live list the const [find(value)] changes nothing and returns
    the position of the first element that equals [value] by [operator==]:
    no element before it equals [value], and the element at it, if there is
    one, does; when no element equals [value] it is the position [end()]
    returns. The non-const [find] returns the same position, in the store
    the list refers to once it has detached. *)
Theorem find_first_match w l b value :
  stores w !! d l = Some b ->
  exists i,
    cfind T_eq l value w = Some (MkIterator (d l) i, w) /\
    i <= length (ListPrivate.list (obj b)) /\
    (forall j y, j < i -> ListPrivate.list (obj b) !! j = Some y ->
                 T_eq y value = false) /\
    (forall y, ListPrivate.list (obj b) !! i = Some y -> T_eq y value = true) /\
    ((forall y, y ∈ ListPrivate.list (obj b) -> T_eq y value = false) ->
     cend l w = Some (MkIterator (d l) i, w)) /\
    exists l' w',
      find T_eq T_is_pointer l value w = Some ((l', MkIterator (d l') i), w') /\
      contents w' l' = Some (ListPrivate.list (obj b)) /\
      owners w' l' = Some 1%positive.
Proof.
  intros H. exists (std_find T_eq value (ListPrivate.list (obj b))).
  split; [unfold cfind; rewrite (bind_eq _ _ _ _ _ (elements_eq _ _ _ H)); reflexivity|].
  split; [apply std_find_le|].
  split; [apply std_find_before|].
  split; [apply std_find_at|].
  split.
  - intros Hnone. unfold cend. rewrite (bind_eq _ _ _ _ _ (elements_eq _ _ _ H)).
    unfold ret. do 3 f_equal.
    pose proof (std_find_le value (ListPrivate.list (obj b))) as Hle.
    destruct (decide (std_find T_eq value (ListPrivate.list (obj b)) =
                      length (ListPrivate.list (obj b)))) as [E|E]; [congruence|].
    destruct (lookup_lt_is_Some_2 (ListPrivate.list (obj b))
                (std_find T_eq value (ListPrivate.list (obj b)))) as [y Hy]; [lia|].
    pose proof (std_find_at _ _ _ Hy) as Ht.
    rewrite (Hnone y) in Ht; [discriminate|].
    apply list_elem_of_lookup. eauto.
  - destruct (detach_post T_is_pointer _ _ _ H)
      as (l1 & w1 & b1 & Hd & H1 & Hn1 & Hxs & _).
    exists l1, w1. split; [|split].
    + unfold find. rewrite (bind_eq _ _ _ _ _ Hd).
      rewrite (bind_eq _ _ _ _ _ (elements_eq _ _ _ H1)), Hxs. reflexivity.
    + unfold contents. rewrite H1. simpl. rewrite Hxs. reflexivity.
    + unfold owners. rewrite H1. simpl. rewrite Hn1. reflexivity.
Qed.

(** X10. On a live list [contains(value)] changes nothing and is true
    exactly when some element of the list equals [value] by [operator==]. *)
Theorem contains_iff w l b value :
  stores w !! d l = Some b ->
  exists r,
    contains T_eq l value w = Some (r, w) /\
    (r = true <->
     exists y, y ∈ ListPrivate.list (obj b) /\ T_eq y value = true).
Proof.
  intros H. eexists. split.
  - unfold contains. rewrite (bind_eq _ _ _ _ _ (elements_eq _ _ _ H)). reflexivity.
  - set (xs := ListPrivate.list (obj b)).
    pose proof (std_find_le value xs) as Hle.
    rewrite negb_true_iff, Nat.eqb_neq. split.
    + intros Hne.
      destruct (lookup_lt_is_Some_2 xs (std_find T_eq value xs)) as [y Hy]; [lia|].
      exists y. split; [apply list_elem_of_lookup; eauto|].
      exact (std_find_at _ _ _ Hy).
    + intros (y & Hin & Hy) E.
      apply list_elem_of_lookup in Hin as [j Hj].
      pose proof (lookup_lt_Some _ _ _ Hj) as Hlt.
      rewrite (std_find_before value xs j y) in Hy; [discriminate|lia|exact Hj].
Qed.

(** *** isEmpty and size *)

(** X11. On a live list [isEmpty()] and [size()] change nothing; [isEmpty()]
    is true exactly when the list has no element, and then [size()] is [0].
    [size() == 0] implies [isEmpty()] for a list of fewer than [2^32]
    elements. *)
Theorem isEmpty_size w l b :
  stores w !! d l = Some b ->
  exists e n,
    isEmpty l w = Some (e, w) /\
    size l w = Some (n, w) /\
    (e = true <-> ListPrivate.list (obj b) = []) /\
    (e = true -> n = 0%Z) /\
    ((Z.of_nat (length (ListPrivate.list (obj b))) < 2 ^ 32)%Z ->
     n = 0%Z -> e = true).
Proof.
  intros H. eexists _, _. split; [|split].
  - unfold isEmpty. rewrite (bind_eq _ _ _ _ _ (elements_eq _ _ _ H)). reflexivity.
  - unfold size. rewrite (bind_eq _ _ _ _ _ (elements_eq _ _ _ H)). reflexivity.
  - unfold to_unsigned_int, UINT_BITS.
    destruct (ListPrivate.list (obj b)) as [|x xs]; simpl length.
    + repeat split; auto.
    + split; [split; discriminate|]. split; [discriminate|].
      intros Hlt. rewrite Z.mod_small by lia. lia.
Qed.

(** *** insert and erase *)

Lemma list_erase_insert_at (item : T) : forall i (xs : list T),
  i <= length xs -> list_erase_at i (list_insert_at i item xs) = xs.
Proof.
  unfold list_erase_at, list_insert_at.
  induction i as [|i IH]; intros xs Hi.
  - simpl. rewrite drop_0. reflexivity.
  - destruct xs as [|y xs]; simpl in Hi; [lia|].
    simpl. f_equal. apply IH. lia.
Qed.

Lemma list_insert_at_lookup (item : T) i (xs : list T) :
  i <= length xs -> list_insert_at i item xs !! i = Some item.
Proof.
  intros Hi. unfold list_insert_at.
  rewrite lookup_app_r by (rewrite length_take; lia).
  rewrite length_take, Nat.min_l, Nat.sub_diag by lia. reflexivity.
Qed.

Lemma list_insert_at_length (item : T) i (xs : list T) :
  length (list_insert_at i item xs) = S (length xs).
Proof.
  unfold list_insert_at. rewrite length_app. simpl.
  rewrite length_take, length_drop. lia.
Qed.

(** X12. For a position [it] of the list's own store, the end included,
    [insert(it, item)] succeeds without a detach and returns a position that
    dereferences to [item]; the sequence is the former one with [item] put in
    just before [it]. [erase] at the position returned then gives back the
    position [it] and the world as it was before the [insert]. *)
Theorem insert_then_erase w l b it item :
  stores w !! d l = Some b ->
  it_store it = d l ->
  it_pos it <= length (ListPrivate.list (obj b)) ->
  exists it' w1,
    insert l it item w = Some (it', w1) /\
    Iterator_deref it' w1 = Some (item, w1) /\
    contents w1 l =
      Some (take (it_pos it) (ListPrivate.list (obj b)) ++
            item :: drop (it_pos it) (ListPrivate.list (obj b))) /\
    owners w1 l = owners w l /\
    erase l it' w1 = Some (it, w).
Proof.
  intros H Hst Hle. destruct it as [s i]. simpl in Hst, Hle |- *. subst s.
  set (xs := ListPrivate.list (obj b)) in *.
  eexists _, _.
  split; [exact (insert_eq _ _ _ (MkIterator (d l) i) _ H eq_refl Hle)|].
  fold xs. cbn [it_pos].
  set (b1 := SharedBlock (use_count b)
               (ListPrivate.mk (list_insert_at i item xs)
                               (ListPrivate.autoDelete (obj b)))).
  set (w1 := World (<[d l := b1]> (stores w)) (deleted w)).
  assert (H1 : stores w1 !! d l = Some b1) by (simpl; apply lookup_insert_eq).
  split.
  { apply (Iterator_deref_eq w1 (MkIterator (d l) i) b1 item H1).
    apply list_insert_at_lookup, Hle. }
  split; [unfold contents; rewrite H1; reflexivity|].
  split; [unfold owners; rewrite H1, H; reflexivity|].
  unfold erase. rewrite (bind_eq _ _ _ _ _ (elements_eq _ _ _ H1)).
  cbn [it_store it_pos].
  rewrite bool_decide_true by reflexivity.
  destruct (Nat.ltb_spec i (length (ListPrivate.list (obj b1)))) as [_|Hge].
  - cbn [andb].
    rewrite (bind_eq _ _ _ _ _ (set_elements_eq _ _ _ _ H1)).
    unfold ret. subst w1 b1. cbn [stores deleted use_count obj
                                   ListPrivate.list ListPrivate.autoDelete].
    rewrite insert_insert_eq, list_erase_insert_at by exact Hle.
    subst xs. rewrite block_eta, (insert_id _ _ _ H), world_eta. reflexivity.
  - subst b1. cbn [obj ListPrivate.list] in Hge.
    rewrite list_insert_at_length in Hge. lia.
Qed.

(** *** front and back *)

(** X13. After [prepend(x)] on a live list, [front()] is [x], for the const
    member and through the reference the non-const one returns; after
    [append(x)], [back()] is [x] in the same way. Neither [front()] nor
    [back()] changes the world then. *)
Theorem front_back_after_insertion w l b x :
  stores w !! d l = Some b ->
  (exists l' w' r,
     prepend T_is_pointer l x w = Some (l', w') /\
     cfront l' w' = Some (x, w') /\
     front T_is_pointer l' w' = Some ((l', r), w') /\
     Ref_read r w' = Some (x, w')) /\
  (exists l' w' r,
     append T_is_pointer l x w = Some (l', w') /\
     cback l' w' = Some (x, w') /\
     back T_is_pointer l' w' = Some ((l', r), w') /\
     Ref_read r w' = Some (x, w')).
Proof.
  intros H. split.
  - destruct (modify_contents w l b (fun xs => x :: xs) H)
      as (l' & w' & Hp & _ & _ & H1 & _).
    exists l', w', (MkIterator (d l') 0). split; [exact Hp|].
    split; [unfold cfront; rewrite (bind_eq _ _ _ _ _ (elements_eq _ _ _ H1));
            reflexivity|].
    split.
    + unfold front. rewrite (bind_eq _ _ _ _ _ (detach_sole _ _ _ _ H1 eq_refl)).
      rewrite (bind_eq _ _ _ _ _ (elements_eq _ _ _ H1)). reflexivity.
    + apply (Iterator_deref_eq w' (MkIterator (d l') 0) _ x H1). reflexivity.
  - destruct (modify_contents w l b (fun xs => xs ++ [x]) H)
      as (l' & w' & Hp & _ & _ & H1 & _).
    set (xs := ListPrivate.list (obj b)) in *.
    exists l', w', (MkIterator (d l') (Nat.pred (length (xs ++ [x])))).
    split; [exact Hp|].
    split.
    { unfold cback. rewrite (bind_eq _ _ _ _ _ (elements_eq _ _ _ H1)).
      cbn [obj ListPrivate.list]. rewrite last_snoc. reflexivity. }
    split.
    + unfold back. rewrite (bind_eq _ _ _ _ _ (detach_sole _ _ _ _ H1 eq_refl)).
      rewrite (bind_eq _ _ _ _ _ (elements_eq _ _ _ H1)).
      cbn [obj ListPrivate.list]. destruct (xs ++ [x]) eqn:E; [|reflexivity].
      destruct xs; discriminate.
    + apply (Iterator_deref_eq w'
               (MkIterator (d l') (Nat.pred (length (xs ++ [x])))) _ x H1).
      cbn [it_pos obj ListPrivate.list].
      rewrite length_app. simpl. rewrite Nat.add_1_r. simpl.
      rewrite lookup_app_r by lia. rewrite Nat.sub_diag. reflexivity.
Qed.

(** *** sortedInsert on a list in ascending order *)

Lemma Sorted_insert_at (R : T -> T -> Prop) (v : T) : forall i (xs : list T),
  i <= length xs ->
  Sorted R xs ->
  (forall j y, j < i -> xs !! j = Some y -> R y v) ->
  (forall y, xs !! i = Some y -> R v y) ->
  Sorted R (take i xs ++ v :: drop i xs).
Proof.
  induction i as [|i IH]; intros xs Hi Hs Hlo Hhi.
  - simpl. rewrite drop_0. constructor; [exact Hs|].
    destruct xs as [|y xs]; constructor. apply Hhi. reflexivity.
  - destruct xs as [|y xs]; simpl in Hi; [lia|].
    simpl. inversion Hs as [|? ? Hs' Hhd]; subst.
    constructor.
    + apply IH; [lia|exact Hs'| |].
      * intros j z Hj Hz. apply (Hlo (S j) z); [lia|exact Hz].
      * intros z Hz. apply Hhi. exact Hz.
    + destruct i as [|i].
      * simpl. constructor. apply (Hlo 0 y); [lia|reflexivity].
      * destruct xs as [|z xs]; simpl in Hi; [lia|].
        simpl. constructor. inversion Hhd; subst. assumption.
Qed.

Lemma insert_at_Permutation (v : T) i (xs : list T) :
  take i xs ++ v :: drop i xs ≡ₚ v :: xs.
Proof.
  rewrite <- Permutation_middle. rewrite take_drop. reflexivity.
Qed.

(** [sortedInsert] puts [value] in at the position of the first element not
    less than it, unless [unique] is set and that element equals [value]. *)
Lemma sortedInsert_at_lower_bound w l b (value : T) (unique : bool) :
  stores w !! d l = Some b ->
  exists l' w',
    sortedInsert T_lt T_eq T_is_pointer l value unique w = Some (l', w') /\
    contents w' l' =
      Some (if unique &&
               match ListPrivate.list (obj b)
                       !! lower_bound T_lt value (ListPrivate.list (obj b)) with
               | Some y => T_eq y value
               | None => false
               end
            then ListPrivate.list (obj b)
            else take (lower_bound T_lt value (ListPrivate.list (obj b)))
                      (ListPrivate.list (obj b)) ++
                 value :: drop (lower_bound T_lt value (ListPrivate.list (obj b)))
                               (ListPrivate.list (obj b))).
Proof.
  intros H.
  destruct (detach_post T_is_pointer _ _ _ H)
    as (l1 & w1 & b1 & Hd & H1 & Hn1 & Hxs & _).
  destruct (sortedInsert_sole T_lt T_eq T_is_pointer w1 l1 b1 value unique H1 Hn1)
    as (w' & Hs & Hl).
  rewrite Hxs in Hl.
  exists l1, w'. split.
  - rewrite <- Hs. unfold sortedInsert at 1.
    rewrite (bind_eq _ _ _ _ _ Hd).
    unfold sortedInsert.
    rewrite (bind_eq _ _ _ _ _ (detach_sole T_is_pointer _ _ _ H1 Hn1)). reflexivity.
  - unfold contents. rewrite Hl. reflexivity.
Qed.

(** X14. Let [operator<] be asymmetric. On a live list in ascending order
    [sortedInsert(value, unique)] leaves a list in ascending order. Its
    elements are the former ones and [value], or, only when [unique] is set,
    the former ones alone and untouched; without [unique], [value] is always
    put in. *)
Theorem sortedInsert_keeps_ascending w l b value unique :
  (forall x y, T_lt x y = true -> T_lt y x = false) ->
  stores w !! d l = Some b ->
  ascending T_lt (ListPrivate.list (obj b)) ->
  exists l' w' ys,
    sortedInsert T_lt T_eq T_is_pointer l value unique w = Some (l', w') /\
    contents w' l' = Some ys /\
    ascending T_lt ys /\
    (ys ≡ₚ value :: ListPrivate.list (obj b) \/
     unique = true /\ ys = ListPrivate.list (obj b)) /\
    (unique = false -> ys ≡ₚ value :: ListPrivate.list (obj b)).
Proof.
  intros Hasym H Hs.
  destruct (sortedInsert_at_lower_bound w l b value unique H) as (l' & w' & Hrun & Hc).
  set (xs := ListPrivate.list (obj b)) in *.
  set (i := lower_bound T_lt value xs) in *.
  pose proof (lower_bound_le T_lt value xs) as Hi. fold i in Hi.
  pose proof (lower_bound_before T_lt value xs) as Hlo. fold i in Hlo.
  pose proof (lower_bound_at T_lt value xs) as Hhi. fold i in Hhi.
  eexists l', w', _. split; [exact Hrun|]. split; [exact Hc|].
  destruct (unique && _) eqn:Eu.
  - split; [exact Hs|]. split.
    + right. split; [|reflexivity]. destruct unique; [reflexivity|discriminate].
    + intros ->. discriminate.
  - split; [|split; [left|intros _]; apply insert_at_Permutation].
    apply Sorted_insert_at; [exact Hi|exact Hs| |].
    + intros j y Hj Hy. unfold T_le. apply Hasym. exact (Hlo j y Hj Hy).
    + intros y Hy. exact (Hhi y Hy).
Qed.

(** X15. Let [operator==] on the elements be equality and [operator<] a
    strict total order. On a live list in ascending order
    [sortedInsert(value, true)] leaves the sequence as it is when [value] is
    in the list already, and puts [value] in when it is not. *)
Theorem sortedInsert_unique_iff w l b value :
  (forall x y, T_eq x y = true <-> x = y) ->
  (forall x, T_lt x x = false) ->
  (forall x y z, T_lt x y = true -> T_lt y z = true -> T_lt x z = true) ->
  (forall x y, T_lt x y = false -> T_lt y x = false -> x = y) ->
  stores w !! d l = Some b ->
  ascending T_lt (ListPrivate.list (obj b)) ->
  exists l' w' ys,
    sortedInsert T_lt T_eq T_is_pointer l value true w = Some (l', w') /\
    contents w' l' = Some ys /\
    (value ∈ ListPrivate.list (obj b) -> ys = ListPrivate.list (obj b)) /\
    (value ∉ ListPrivate.list (obj b) ->
     ys ≡ₚ value :: ListPrivate.list (obj b) /\ ascending T_lt ys).
Proof.
  intros Heq Hirr Htrans Htri H Hs.
  assert (Hasym : forall x y, T_lt x y = true -> T_lt y x = false).
  { intros x y Hxy. destruct (T_lt y x) eqn:Hyx; [|reflexivity].
    rewrite <- (Hirr x). symmetry. exact (Htrans _ _ _ Hxy Hyx). }
  assert (Hle_trans : Transitive (T_le T_lt)).
  { intros x y z Hxy Hyz. unfold T_le in *.
    destruct (T_lt z x) eqn:Hzx; [|reflexivity].
    destruct (T_lt x y) eqn:E1.
    - rewrite (Htrans _ _ _ Hzx E1) in Hyz. discriminate.
    - pose proof (Htri _ _ E1 Hxy) as ->. rewrite Hzx in Hyz. discriminate. }
  destruct (sortedInsert_at_lower_bound w l b value true H) as (l' & w' & Hrun & Hc).
  set (xs := ListPrivate.list (obj b)) in *.
  set (i := lower_bound T_lt value xs) in *.
  pose proof (lower_bound_le T_lt value xs) as Hi. fold i in Hi.
  pose proof (lower_bound_before T_lt value xs) as Hlo. fold i in Hlo.
  pose proof (lower_bound_at T_lt value xs) as Hhi. fold i in Hhi.
  eexists l', w', _. split; [exact Hrun|]. split; [exact Hc|].
  simpl andb.
  split.
  - intros Hin. apply list_elem_of_lookup in Hin as [j Hj].
    assert (Hij : i <= j).
    { destruct (Nat.le_gt_cases i j) as [Hle|Hgt]; [exact Hle|].
      pose proof (Hlo j value Hgt Hj) as E. rewrite Hirr in E. discriminate E. }
    pose proof (lookup_lt_Some _ _ _ Hj) as Hjlt.
    destruct (lookup_lt_is_Some_2 xs i) as [y Hy]; [lia|].
    rewrite Hy.
    assert (y = value) as ->.
    { apply Htri; [exact (Hhi y Hy)|].
      destruct (decide (i = j)) as [->|Hne].
      - rewrite Hy in Hj. injection Hj as ->. apply Hirr.
      - apply Sorted_StronglySorted in Hs; [|exact Hle_trans].
        rewrite <- (take_drop_middle xs i y Hy) in Hs, Hj.
        apply StronglySorted_app in Hs as (_ & _ & Hs).
        inversion Hs as [|? ? _ Hall]; subst.
        rewrite Forall_forall in Hall. apply Hall.
        rewrite lookup_app_r in Hj by (rewrite length_take; lia).
        rewrite length_take, Nat.min_l in Hj by lia.
        destruct (j - i) as [|k] eqn:Ek; [lia|]. simpl in Hj.
        apply list_elem_of_lookup. eauto. }
    rewrite (proj2 (Heq value value) eq_refl). reflexivity.
  - intros Hnin.
    assert (Hc' : match xs !! i with Some y => T_eq y value | None => false end = false).
    { destruct (xs !! i) as [y|] eqn:Hy; [|reflexivity].
      destruct (T_eq y value) eqn:Ey; [|reflexivity].
      apply Heq in Ey. subst y. exfalso. apply Hnin.
      apply list_elem_of_lookup. eauto. }
    rewrite Hc'. split; [apply insert_at_Permutation|].
    apply Sorted_insert_at; [exact Hi|exact Hs| |].
    + intros j y Hj Hy. unfold T_le. apply Hasym. exact (Hlo j y Hj Hy).
    + intros y Hy. exact (Hhi y Hy).
Qed.

(** *** Assignment of a braced list and the store given up *)

(** The two cases of the store given up by the assignment of a braced list. *)
Lemma assign_init_cases w l b init :
  stores w !! d l = Some b ->
  exists a w',
    assign_init T_is_pointer l init w = Some (MkList a, w') /\
    a <> d l /\
    owners w' (MkList a) = Some 1%positive /\
    contents w' (MkList a) = Some init /\
    (use_count b = 1%positive ->
     stores w' !! d l = None /\
     deleted w' =
       deleted w ++ (if T_is_pointer && ListPrivate.autoDelete (obj b)
                     then ListPrivate.list (obj b) else [])) /\
    (use_count b <> 1%positive ->
     stores w' !! d l = Some (SharedBlock (Pos.pred (use_count b)) (obj b)) /\
     deleted w' = deleted w).
Proof.
  intros H.
  set (a := fresh (dom (stores w))).
  assert (Hne : a <> d l) by exact (fresh_not_live _ _ _ H).
  set (w1 := World (<[a := SharedBlock 1 (ListPrivate.mk init false)]> (stores w))
                   (deleted w)).
  assert (Hget : autoDelete l w = Some (ListPrivate.autoDelete (obj b), w)).
  { unfold autoDelete. rewrite (bind_eq _ _ _ _ _ (sp_get_eq _ _ _ H)). reflexivity. }
  assert (Hinit : List_init init w = Some (MkList a, w1)) by reflexivity.
  assert (Hold : stores w1 !! d l = Some b).
  { simpl. rewrite lookup_insert_ne by exact Hne. exact H. }
  assert (Hrun : forall w2,
            sp_release T_is_pointer (d l) w1 = Some (tt, w2) ->
            stores w2 !! a = Some (SharedBlock 1 (ListPrivate.mk init false)) ->
            assign_init T_is_pointer l init w =
              Some (MkList a,
                    World (<[a := SharedBlock 1
                                    (ListPrivate.mk init (ListPrivate.autoDelete (obj b)))]>
                             (stores w2))
                          (deleted w2))).
  { intros w2 Hrel Ha. unfold assign_init.
    rewrite (bind_eq _ _ _ _ _ Hget), (bind_eq _ _ _ _ _ Hinit).
    erewrite (bind_eq (swap _ _)) by reflexivity.
    unfold List_destroy. simpl d.
    rewrite (bind_eq _ _ _ _ _ Hrel).
    apply (setAutoDelete_sole T_is_pointer w2 (MkList a) _ _ Ha eq_refl). }
  exists a. destruct (decide (use_count b = 1%positive)) as [Hn|Hn].
  - eexists. split.
    { apply (Hrun _ (sp_release_last _ _ _ _ Hold Hn)).
      simpl. rewrite lookup_delete_ne by congruence. apply lookup_insert_eq. }
    unfold owners, contents; simpl. rewrite lookup_insert_eq. simpl.
    repeat split; try assumption; try contradiction.
    rewrite lookup_insert_ne by exact Hne. apply lookup_delete_eq.
  - eexists. split.
    { apply (Hrun _ (sp_release_shared _ _ _ _ Hold Hn)).
      simpl. rewrite lookup_insert_ne by congruence. apply lookup_insert_eq. }
    unfold owners, contents; simpl. rewrite lookup_insert_eq. simpl.
    repeat split; try assumption; try contradiction.
    rewrite lookup_insert_ne by exact Hne. apply lookup_insert_eq.
Qed.

(** X16. [l = {init...}] on a live list gives up the store the list was on.
    If the list was its only owner, that store is freed and its members are
    deleted, each once and in order, exactly when [T] is a pointer type and
    [autoDelete] was set. If it was shared, the other owners keep the
    elements and the flag and nothing is deleted. *)
Theorem assign_init_releases w l b init :
  stores w !! d l = Some b ->
  exists a w',
    assign_init T_is_pointer l init w = Some (MkList a, w') /\
    a <> d l /\
    owners w' (MkList a) = Some 1%positive /\
    contents w' (MkList a) = Some init /\
    (use_count b = 1%positive ->
     stores w' !! d l = None /\
     deleted w' =
       deleted w ++ (if T_is_pointer && ListPrivate.autoDelete (obj b)
                     then ListPrivate.list (obj b) else [])) /\
    (use_count b <> 1%positive ->
     stores w' !! d l = Some (SharedBlock (Pos.pred (use_count b)) (obj b)) /\
     deleted w' = deleted w).
Proof.
  intros H.
  destruct (assign_init_cases w l b init H)
    as (a & w' & Hrun & Hne & Ho & Hc & Hsole & Hsh).
  exists a, w'. split; [exact Hrun|]. split; [exact Hne|]. split; [exact Ho|].
  split; [exact Hc|]. split; [exact Hsole|exact Hsh].
Qed.

(** *** What a detaching member does to the other owners *)

Implicit Types (blk : shared_block T) (del : list T).

Lemma steady_ret {A} a (x : A) : steady (T:=T) a (ret x).
Proof.
  intros w y w' E. injection E as <- <-.
  split; [apply same_owners_refl|split; reflexivity].
Qed.

Lemma steady_undefined {A} a : steady a (@undefined T A).
Proof. intros w y w' E. discriminate. Qed.

Lemma steady_bind {A B} a (m : M T A) (k : A -> M T B) :
  steady a m -> (forall x, steady a (k x)) -> steady a (bind m k).
Proof.
  intros Hm Hk w y w' Hb.
  destruct (bind_inv _ _ _ _ Hb) as (x & w1 & E1 & E2).
  destruct (Hm _ _ _ E1) as (Ho1 & Hs1 & Hd1).
  destruct (Hk _ _ _ _ E2) as (Ho2 & Hs2 & Hd2).
  split; [exact (same_owners_trans _ _ _ Ho1 Ho2)|].
  split; congruence.
Qed.

Lemma steady_sp_get a a' : steady (T:=T) a (sp_get a').
Proof.
  intros w y w' E. unfold sp_get, sp_block, bind in E.
  destruct (stores w !! a'); [|discriminate]. injection E as <- <-.
  split; [apply same_owners_refl|split; reflexivity].
Qed.

Lemma steady_sp_set a a' p : a' <> a -> steady (T:=T) a (sp_set a' p).
Proof.
  intros Hne w y w' E. split; [exact (quiet_sp_set _ _ _ _ _ E)|].
  unfold sp_set, sp_block, bind in E.
  destruct (stores w !! a'); [|discriminate]. injection E as <- <-.
  simpl. split; [apply lookup_insert_ne; exact Hne|reflexivity].
Qed.

Lemma steady_elements a l : steady (T:=T) a (elements l).
Proof. apply steady_bind; [apply steady_sp_get|intros; apply steady_ret]. Qed.

Lemma steady_set_elements a l xs : d l <> a -> steady (T:=T) a (set_elements l xs).
Proof.
  intros Hne. apply steady_bind; [apply steady_sp_get|intros; apply steady_sp_set, Hne].
Qed.

Lemma steady_Iterator_deref a it : steady (T:=T) a (Iterator_deref it).
Proof.
  apply steady_bind; [apply steady_sp_get|intros p].
  destruct (_ !! _); [apply steady_ret|apply steady_undefined].
Qed.

Lemma steady_insert a l it item : d l <> a -> steady (T:=T) a (insert l it item).
Proof.
  intros Hne. apply steady_bind; [apply steady_elements|intros xs].
  destruct (_ && _); [|apply steady_undefined].
  apply steady_bind; [apply steady_set_elements, Hne|intros; apply steady_ret].
Qed.

Lemma steady_keeps_apart {A} a blk del l (m : M T A) :
  steady a m -> hoare (T:=T) (apart a blk del l) m (fun _ => apart a blk del l).
Proof.
  intros Hm w x w' (Hne & Hs & Ha & Hd) E.
  destruct (Hm _ _ _ E) as (Ho & Hst & Hdel).
  split; [exact Hne|]. split; [|split; congruence].
  unfold sole, owners in *. rewrite (Ho (d l)). exact Hs.
Qed.

Lemma hoare_apart_ne {A} a blk del l (m : M T A) Q :
  (d l <> a -> hoare (T:=T) (apart a blk del l) m Q) -> hoare (T:=T) (apart a blk del l) m Q.
Proof. intros Hm w x w' HP E. exact (Hm (proj1 HP) w x w' HP E). Qed.

(** [detach()] by a sole owner changes nothing. *)
Lemma detach_apart a blk del l :
  hoare (T:=T) (apart a blk del l) (detach T_is_pointer l) (fun l' => apart a blk del l').
Proof.
  intros w l' w' HP E. pose proof HP as (_ & Hs & _).
  unfold sole, owners in Hs.
  destruct (stores w !! d l) as [b0|] eqn:H0; [|discriminate].
  simpl in Hs. injection Hs as Hn.
  rewrite (detach_sole T_is_pointer _ _ _ H0 Hn) in E. injection E as <- <-.
  exact HP.
Qed.

Ltac solve_steady :=
  repeat first
    [ apply steady_ret | apply steady_undefined | apply steady_sp_get
    | apply steady_elements | apply steady_Iterator_deref
    | apply steady_sp_set; assumption
    | apply steady_set_elements; assumption
    | apply steady_insert; assumption
    | apply steady_bind; [|intros ?]
    | match goal with
      | |- steady _ (match ?x with _ => _ end) => destruct x
      end ].

(** Closes [hoare (T:=T) (apart a blk del l) m (fun x => apart a blk del (f x))]
    for a computation made of steady steps that ends by returning [l]. *)
Ltac solve_apart l :=
  apply hoare_apart_ne; intros ?;
  repeat first
    [ apply hoare_undefined
    | apply hoare_ret; intros; simpl; assumption
    | eapply hoare_bind;
      [ apply (steady_keeps_apart _ _ _ l); solve [solve_steady] | intros ?; simpl ]
    | match goal with
      | |- hoare _ (match ?x with _ => _ end) _ => destruct x
      end ].

Lemma begin_apart a blk del l :
  hoare (T:=T) (apart a blk del l) (begin_ T_is_pointer l) (fun x => apart a blk del (fst x)).
Proof.
  eapply hoare_bind; [apply detach_apart|intros l1; simpl]. solve_apart l1.
Qed.

Lemma end_apart a blk del l :
  hoare (T:=T) (apart a blk del l) (end_ T_is_pointer l) (fun x => apart a blk del (fst x)).
Proof.
  eapply hoare_bind; [apply detach_apart|intros l1; simpl]. solve_apart l1.
Qed.

Lemma sortedInsert_scan_apart a blk del value : forall fuel l it,
  hoare (T:=T) (apart a blk del l) (sortedInsert_scan T_lt T_is_pointer fuel l value it)
        (fun x => apart a blk del (fst x)).
Proof.
  induction fuel as [|fuel IH]; intros l it;
    rewrite sortedInsert_scan_unfold;
    (eapply hoare_bind; [apply end_apart|intros [l1 e]; simpl]);
    (destruct (Iterator_eqb it e); [apply hoare_ret; intros ? Hs; exact Hs|]);
    (eapply hoare_bind;
     [apply (steady_keeps_apart _ _ _ l1), steady_Iterator_deref|intros x; simpl]);
    (destruct (T_lt x value); [|apply hoare_ret; intros ? Hs; exact Hs]).
  - apply hoare_undefined.
  - apply IH.
Qed.

Lemma sortedInsert_tail_apart a blk del l (value : T) (unique : bool) :
  hoare (T:=T) (apart a blk del l)
        ('(l, it) <~ begin_ T_is_pointer l ;;
         xs <~ elements l ;;
         '(l, it) <~ sortedInsert_scan T_lt T_is_pointer (length xs) l value it ;;
         '(l, e) <~ (if unique then end_ T_is_pointer l else ret (l, it)) ;;
         stop <~ (if unique && negb (Iterator_eqb it e)
                  then x <~ Iterator_deref it ;; ret (T_eq x value)
                  else ret false) ;;
         if stop then ret l
         else insert l it value ;;; ret l)
        (fun l' => apart a blk del l').
Proof.
  eapply hoare_bind; [apply begin_apart|intros [l2 it2]; simpl].
  eapply hoare_bind;
    [apply (steady_keeps_apart _ _ _ l2), steady_elements|intros xs; simpl].
  eapply hoare_bind; [apply sortedInsert_scan_apart|intros [l3 it3]; simpl].
  eapply (hoare_bind _ _ (fun x => apart a blk del (fst x))).
  { destruct unique; [apply end_apart|apply hoare_ret; intros ? Hs; exact Hs]. }
  intros [l4 e]; simpl.
  apply hoare_apart_ne; intros Hne.
  eapply hoare_bind.
  { apply (steady_keeps_apart _ _ _ l4). destruct (_ && _); solve_steady. }
  intros stop; simpl. destruct stop; solve_apart l4.
Qed.

(** [detach()] of a shared store sets the list apart from it. *)
Lemma detach_sets_apart w l b :
  stores w !! d l = Some b -> use_count b <> 1%positive ->
  hoare (T:=T) (fun w0 => w0 = w) (detach T_is_pointer l)
        (fun l1 => apart (d l) (SharedBlock (Pos.pred (use_count b)) (obj b))
                         (deleted w) l1).
Proof.
  intros H Hn w0 l1 w1 -> E.
  rewrite (detach_shared T_is_pointer _ _ _ H Hn) in E. injection E as <- <-.
  split; [exact (fresh_not_live _ _ _ H)|].
  split; [|split; [apply detached_lookup_old|reflexivity]].
  unfold sole, owners. simpl d. rewrite (detached_lookup_new _ _ _ H). reflexivity.
Qed.

(** X17. Let a live list be on a store that has other owners. When a
    non-const public member whose body calls [detach()] completes on it, the
    list is the only owner of another store; the store it left has one owner
    fewer and the elements and the flag it had, and no pointee has been
    deleted: what the member did is invisible from every other owner. *)
Theorem detaching_member_leaves_sharers (m : mutator T) w l b l' w' :
  calls_detach m = true ->
  stores w !! d l = Some b ->
  use_count b <> 1%positive ->
  run T_lt T_eq T_is_pointer m l w = Some (l', w') ->
  d l' <> d l /\
  owners w' l' = Some 1%positive /\
  stores w' !! d l = Some (SharedBlock (Pos.pred (use_count b)) (obj b)) /\
  deleted w' = deleted w.
Proof.
  intros Hc H Hn Hrun.
  set (blk := SharedBlock (Pos.pred (use_count b)) (obj b)).
  assert (Hfin : forall l0 w0, apart (d l) blk (deleted w) l0 w0 ->
            d l0 <> d l /\ owners w0 l0 = Some 1%positive /\
            stores w0 !! d l = Some blk /\ deleted w0 = deleted w).
  { intros l0 w0 (E1 & E2 & E3 & E4). repeat split; assumption. }
  assert (Hvia : forall {A} (k : List -> M T A) (f : A -> List),
            (forall l1, hoare (T:=T) (apart (d l) blk (deleted w) l1) (k l1)
                              (fun x => apart (d l) blk (deleted w) (f x))) ->
            hoare (T:=T) (fun w0 => w0 = w) (bind (detach T_is_pointer l) k)
                  (fun x => apart (d l) blk (deleted w) (f x))).
  { intros A k f Hk. eapply hoare_bind; [apply (detach_sets_apart _ _ _ H Hn)|exact Hk]. }
  assert (Hpair : forall (c : M T (List * Iterator)),
            hoare (T:=T) (fun w0 => w0 = w) c (fun x => apart (d l) blk (deleted w) (fst x)) ->
            hoare (T:=T) (fun w0 => w0 = w) ('(l, _) <~ c ;; ret l)
                  (fun l' => apart (d l) blk (deleted w) l')).
  { intros c Hcq. eapply hoare_bind; [exact Hcq|].
    intros [l1 it1]; simpl. apply hoare_ret. intros ? Hs; exact Hs. }
  destruct m; simpl in Hc; try discriminate; simpl run in Hrun.
  - apply Hfin. refine (Hpair _ _ w l' w' eq_refl Hrun).
    apply Hvia. intros l1. solve_apart l1.
  - apply Hfin. refine (Hpair _ _ w l' w' eq_refl Hrun).
    apply Hvia. intros l1. solve_apart l1.
  - apply Hfin. refine (Hvia _ _ id _ w l' w' eq_refl Hrun).
    intros l1. apply sortedInsert_tail_apart.
  - apply Hfin. refine (Hvia _ _ id _ w l' w' eq_refl Hrun).
    intros l1. solve_apart l1.
  - apply Hfin. refine (Hvia _ _ id _ w l' w' eq_refl Hrun).
    intros l1. solve_apart l1.
  - apply Hfin. refine (Hvia _ _ id _ w l' w' eq_refl Hrun).
    intros l1. solve_apart l1.
  - apply Hfin. refine (Hvia _ _ id _ w l' w' eq_refl Hrun).
    intros l1. solve_apart l1.
  - destruct (clear_cases w l b H) as (l1 & w1 & Hcl & _ & Ho & _ & Hsh).
    rewrite Hcl in Hrun. injection Hrun as <- <-.
    destruct (Hsh Hn) as (Hfr & Hold & _ & Hdel).
    repeat split; try assumption. intros E. rewrite E, H in Hfr. discriminate.
  - apply Hfin. refine (Hpair _ _ w l' w' eq_refl Hrun).
    apply Hvia. intros l1. solve_apart l1.
  - apply Hfin. refine (Hpair _ _ w l' w' eq_refl Hrun).
    apply Hvia. intros l1. solve_apart l1.
  - apply Hfin. refine (Hpair _ _ w l' w' eq_refl Hrun).
    apply Hvia. intros l1. solve_apart l1.
  - apply Hfin. refine (Hvia _ _ id _ w l' w' eq_refl Hrun).
    intros l1. solve_apart l1.
  - destruct (assign_init_cases w l b init H)
      as (a & w1 & Has & Hne & Ho & _ & _ & Hsh).
    rewrite Has in Hrun. injection Hrun as <- <-.
    destruct (Hsh Hn) as (Hold & Hdel). repeat split; assumption.
  - apply Hfin. refine (Hvia _ _ id _ w l' w' eq_refl Hrun).
    intros l1. solve_apart l1.
  - apply Hfin. refine (Hvia _ _ id _ w l' w' eq_refl Hrun).
    intros l1. solve_apart l1.
Qed.

(** *** Detaching once is enough *)

(** X18. [detach()] on a live list succeeds and keeps the elements; a
    second [detach()] right after it changes neither the list nor the world,
    so that a run of mutating calls copies the store at most once. *)
Theorem detach_twice w l b :
  stores w !! d l = Some b ->
  exists l1 w1,
    detach T_is_pointer l w = Some (l1, w1) /\
    contents w1 l1 = Some (ListPrivate.list (obj b)) /\
    detach T_is_pointer l1 w1 = Some (l1, w1).
Proof.
  intros H.
  destruct (detach_post T_is_pointer _ _ _ H)
    as (l1 & w1 & b1 & Hd & H1 & Hn1 & Hxs & _).
  exists l1, w1. split; [exact Hd|].
  split; [unfold contents; rewrite H1; simpl; rewrite Hxs; reflexivity|].
  exact (detach_sole T_is_pointer _ _ _ H1 Hn1).
Qed.

(** *** A copy and its original under == *)

Lemma std_list_eq_refl (xs : list T) :
  (forall y, y ∈ xs -> T_eq y y = true) -> std_list_eq T_eq xs xs = true.
Proof.
  induction xs as [|x xs IH]; intros Hr; [reflexivity|]. simpl.
  rewrite (Hr x) by apply list_elem_of_here.
  apply IH. intros y Hy. apply Hr. apply list_elem_of_further, Hy.
Qed.

Lemma std_list_eq_length (xs ys : list T) :
  std_list_eq T_eq xs ys = true -> length xs = length ys.
Proof.
  intros E. apply std_list_eq_Forall2 in E. exact (Forall2_length _ _ _ E).
Qed.

(** X19. Let [operator==] hold between each element of a live list [A] and
    itself. A copy [B] of [A] compares equal to [A]; once [B.append(x)] has
    been called, [A == B] is false and [A != B] is true, whatever [x]. *)
Theorem copy_equal_until_written w (A : List) b x :
  (forall y, y ∈ ListPrivate.list (obj b) -> T_eq y y = true) ->
  stores w !! d A = Some b ->
  exists B w1 B' w2,
    List_copy A w = Some (B, w1) /\
    op_eq T_eq A B w1 = Some (true, w1) /\
    op_ne T_eq A B w1 = Some (false, w1) /\
    append T_is_pointer B x w1 = Some (B', w2) /\
    op_eq T_eq A B' w2 = Some (false, w2) /\
    op_ne T_eq A B' w2 = Some (true, w2).
Proof.
  intros Hr H.
  destruct (make_copy_shares T_is_pointer w A b ByConstruction H I)
    as (w1 & m & Hc & H1 & Hm & _).
  simpl in Hc.
  destruct (append_shared T_is_pointer w1 (MkList (d A)) _ x H1 Hm)
    as (B' & w2 & Happ & Hne & _ & HB' & HA').
  simpl in HB', HA'.
  exists (MkList (d A)), w1, B', w2.
  split; [exact Hc|].
  pose proof (op_eq_run T_eq w1 A (MkList (d A)) _ _ H1 H1) as E1.
  pose proof (op_ne_run T_eq w1 A (MkList (d A)) _ _ H1 H1) as E2.
  simpl in E1, E2. rewrite (std_list_eq_refl _ Hr) in E1, E2.
  split; [exact E1|]. split; [exact E2|]. split; [exact Happ|].
  pose proof (op_eq_run T_eq w2 A B' _ _ HA' HB') as E3.
  pose proof (op_ne_run T_eq w2 A B' _ _ HA' HB') as E4.
  simpl in E3, E4.
  assert (Hf : std_list_eq T_eq (ListPrivate.list (obj b))
                 (ListPrivate.list (obj b) ++ [x]) = false).
  { destruct (std_list_eq _ _ _) eqn:E; [|reflexivity].
    apply std_list_eq_length in E. rewrite length_app in E. simpl in E. lia. }
  rewrite Hf in E3, E4. split; [exact E3|exact E4].
Qed.

(** *** The const members *)

Lemma readonly_ret {A} (x : A) : readonly (T:=T) (ret x).
Proof. intros w y w' E. injection E as <- <-. reflexivity. Qed.

Lemma readonly_undefined {A} : readonly (@undefined T A).
Proof. intros w y w' E. discriminate. Qed.

Lemma readonly_bind {A B} (m : M T A) (k : A -> M T B) :
  readonly m -> (forall x, readonly (k x)) -> readonly (bind m k).
Proof.
  intros Hm Hk w y w' Hb.
  destruct (bind_inv _ _ _ _ Hb) as (x & w1 & E1 & E2).
  rewrite (Hk _ _ _ _ E2). exact (Hm _ _ _ E1).
Qed.

Lemma readonly_sp_get a : readonly (T:=T) (sp_get a).
Proof.
  intros w y w' E. unfold sp_get, sp_block, bind in E.
  destruct (stores w !! a); [|discriminate]. injection E as <- <-. reflexivity.
Qed.

Lemma readonly_elements l : readonly (T:=T) (elements l).
Proof. apply readonly_bind; [apply readonly_sp_get|intros; apply readonly_ret]. Qed.

Ltac solve_readonly :=
  repeat first
    [ apply readonly_ret | apply readonly_undefined | apply readonly_sp_get
    | apply readonly_elements
    | apply readonly_bind; [|intros ?]
    | match goal with
      | |- readonly (match ?x with _ => _ end) => destruct x
      end ].

(** X20. No const member changes the world: whatever [begin() const],
    [end() const], [size()], [isEmpty()], [find() const], [contains()],
    [front() const], [back() const], [autoDelete()], [operator[] const],
    [operator==] and [operator!=] return, no store has been allocated,
    copied, written or freed, no number of owners has changed and no pointee
    has been deleted, also on a store that is shared. *)
Theorem const_members_readonly l other (value : T) (i : nat) :
  readonly (T:=T) (cbegin l) /\
  readonly (T:=T) (cend l) /\
  readonly (T:=T) (size l) /\
  readonly (T:=T) (isEmpty l) /\
  readonly (cfind T_eq l value) /\
  readonly (contains T_eq l value) /\
  readonly (T:=T) (cfront l) /\
  readonly (T:=T) (cback l) /\
  readonly (T:=T) (autoDelete l) /\
  readonly (T:=T) (cindex l i) /\
  readonly (op_eq T_eq l other) /\
  readonly (op_ne T_eq l other).
Proof.
  repeat split;
    unfold cbegin, cend, size, isEmpty, cfind, contains, cfront, cback,
           autoDelete, cindex, op_eq, op_ne;
    solve_readonly.
Qed.

(** *** The whole life of a list *)

(** X21. A list that is created empty, told [setAutoDelete(flg)], filled
    with the elements of [xs] by [append] and destroyed while it is the only
    owner leaves no store behind: the stores are those there were before it
    was created. Its members have been deleted, each once and in the order
    of insertion, exactly when [T] is a pointer type and [flg] is set. *)
Theorem List_lifetime w (xs : list T) (flg : bool) :
  (l <~ List_new ;;
   l <~ setAutoDelete T_is_pointer l flg ;;
   l <~ append_each T_is_pointer l xs ;;
   List_destroy T_is_pointer l) w =
  Some (tt, World (stores w)
                  (deleted w ++ (if T_is_pointer && flg then xs else []))).
Proof.
  set (a := fresh (dom (stores w))).
  unfold List_new.
  rewrite (bind_eq _ _ _ _ _ (bind_eq _ _ _ _ _ (make_shared_eq _ _))).
  fold a.
  erewrite (bind_eq (setAutoDelete _ _ _));
    [|apply setAutoDelete_sole; [simpl; apply lookup_insert_eq|reflexivity]].
  erewrite (bind_eq (append_each _ _ _));
    [|apply append_each_world; [simpl; apply lookup_insert_eq|reflexivity]].
  unfold List_destroy.
  erewrite sp_release_last; [|simpl; apply lookup_insert_eq|reflexivity].
  simpl. unfold ListPrivate_deletes. simpl.
  rewrite !delete_insert_eq, delete_id by apply fresh_lookup.
  reflexivity.
Qed.
End Members.

(** ** The properties on lists of integers *)

Open Scope Z_scope.

(** C1, the literal reading refuted: [A = {1}], [List<int> B(A);
    B.append(1);]. The element appended is in [A] as well, where it was
    before. *)
Lemma copy_append_only_in_copy_fails :
  ~ copy_append_only_in_copy false (world_of [1] 1 false) (MkList 1) 1.
Proof.
  intros (B & w1 & B' & w2 & xsA & xsB & Hc & Ha & _ & _ & HA & _ & _ & Hnot).
  vm_compute in Hc. injection Hc as <- <-.
  vm_compute in Ha. injection Ha as <- <-.
  vm_compute in HA. injection HA as <-.
  apply Hnot. apply list_elem_of_here.
Qed.

(** C1 at [A = {1, 2}]: [List<int> B(A); B.append(3);], and [B = A;
    B.append(3);] for a list [B] that held [{5}]. *)
Lemma copy_then_append_witness :
  (stores (world_of [1; 2] 1 false) !! d (MkList 1) =
     Some (SharedBlock 1 (ListPrivate.mk [1; 2] false)) /\
   copy_target_ok (world_of [1; 2] 1 false) (MkList 1) ByConstruction /\
   exists B w1 B' w2,
     make_copy false ByConstruction (MkList 1) (world_of [1; 2] 1 false) = Some (B, w1) /\
     d B = d (MkList 1) /\
     append false B 3 w1 = Some (B', w2) /\
     contents w2 (MkList 1) = Some [1; 2] /\
     d B' <> d (MkList 1) /\
     owners w2 B' = Some 1%positive /\
     contents w2 B' = Some ([1; 2] ++ [3]) /\
     3 ∈ [1; 2] ++ [3] /\
     (forall xsA, contents w2 (MkList 1) = Some xsA -> (3 ∈ xsA <-> 3 ∈ [1; 2]))) /\
  (stores (world_two [1; 2] [5] 1) !! d (MkList 1) =
     Some (SharedBlock 1 (ListPrivate.mk [1; 2] false)) /\
   copy_target_ok (world_two [1; 2] [5] 1) (MkList 1) (ByAssignment (MkList 2)) /\
   exists B w1 B' w2,
     make_copy false (ByAssignment (MkList 2)) (MkList 1) (world_two [1; 2] [5] 1)
       = Some (B, w1) /\
     append false B 3 w1 = Some (B', w2) /\
     contents w2 (MkList 1) = Some [1; 2] /\
     d B' <> d (MkList 1) /\
     contents w2 B' = Some ([1; 2] ++ [3])).
Proof.
  split.
  - split; [reflexivity|]. split; [exact I|].
    apply (copy_then_append false (world_of [1; 2] 1 false) (MkList 1)
             (SharedBlock 1 (ListPrivate.mk [1; 2] false)) ByConstruction 3);
      [reflexivity|exact I].
  - assert (H : stores (world_two [1; 2] [5] 1) !! d (MkList 1) =
                Some (SharedBlock 1 (ListPrivate.mk [1; 2] false))) by reflexivity.
    assert (Hok : copy_target_ok (world_two [1; 2] [5] 1) (MkList 1)
                    (ByAssignment (MkList 2))).
    { exists (SharedBlock 1 (ListPrivate.mk [5] false)).
      split; [reflexivity|discriminate]. }
    split; [exact H|]. split; [exact Hok|].
    destruct (copy_then_append false _ _ _ _ 3 H Hok)
      as (B & w1 & B' & w2 & Hc & _ & Ha & HA & Hne & _ & HB & _).
    exists B, w1, B', w2. repeat (split; [assumption|]). exact HB.
Defined.

(** C2, the invariant refuted for [swap] and for copy assignment: with [B]
    on a store that has two owners, [A.swap(B)] and [A = B] both leave [A] on
    that store. *)
Lemma sole_after_member_fails :
  ~ sole_after_member Z.ltb Z.eqb false (MSwap (MkList 2))
      (world_two [] [5] 2) (MkList 1) /\
  ~ sole_after_member Z.ltb Z.eqb false (MAssign (MkList 2))
      (world_two [] [5] 2) (MkList 1).
Proof.
  split; intros H; specialize (H eq_refl _ _ eq_refl); vm_compute in H;
    discriminate H.
Qed.

(** C2 at [B.append(7)] for a list [B] that shares the store of [{1, 2}]
    with another list. *)
Lemma sole_owner_after_detaching_member_witness :
  calls_detach (MAppend 7) = true /\
  run Z.ltb Z.eqb false (MAppend 7) (MkList 1) (world_of [1; 2] 2 false) =
    Some (MkList 2,
          World (<[2%positive := SharedBlock 1 (ListPrivate.mk [1; 2; 7] false)]>
                   {[1%positive := SharedBlock 1 (ListPrivate.mk [1; 2] false)]}) []) /\
  sole (MkList 2)
       (World (<[2%positive := SharedBlock 1 (ListPrivate.mk [1; 2; 7] false)]>
                 {[1%positive := SharedBlock 1 (ListPrivate.mk [1; 2] false)]}) []).
Proof.
  split; [reflexivity|].
  assert (E : run Z.ltb Z.eqb false (MAppend 7) (MkList 1) (world_of [1; 2] 2 false) =
    Some (MkList 2,
          World (<[2%positive := SharedBlock 1 (ListPrivate.mk [1; 2; 7] false)]>
                   {[1%positive := SharedBlock 1 (ListPrivate.mk [1; 2] false)]}) []))
    by (vm_compute; reflexivity).
  split; [exact E|].
  exact (sole_owner_after_detaching_member Z.ltb Z.eqb false (MAppend 7)
           _ _ _ _ eq_refl E).
Defined.

(** The slip the amended C2 leaves out, on [A = {1, 2}] and a copy [B]:
    [B[0] = 9;] goes through a reference into the shared store, so that
    [A[0]] is [9] afterwards. *)
Lemma index_writes_shared_store :
  (B <~ List_copy (MkList 1) ;;
   r <~ index B 0 ;;
   Ref_write r 9 ;;;
   x <~ cindex (MkList 1) 0 ;;
   n <~ sp_use_count (d B) ;;
   ret (x, n, d B)) (world_of [1; 2] 1 false)
  = Some ((9, 2%positive, 1%positive), world_of [9; 2] 2 false).
Proof. vm_compute. reflexivity. Qed.

(** C3, the carry-over of the flag refuted: a store with two owners and
    [autoDelete] set; the store [detach()] makes has it unset. *)
Lemma detach_keeps_flag_fails :
  ~ detach_keeps_flag false (world_of [10; 20] 2 true) (MkList 1).
Proof.
  intros H. specialize (H _ _ eq_refl). vm_compute in H. discriminate H.
Qed.

(** C3 at a store with two owners and [autoDelete] set. *)
Lemma detach_spec_witness :
  stores (world_of [10; 20] 2 true) !! d (MkList 1) =
    Some (SharedBlock 2 (ListPrivate.mk [10; 20] true)) /\
  (2%positive = 1%positive ->
   detach false (MkList 1) (world_of [10; 20] 2 true) =
     Some (MkList 1, world_of [10; 20] 2 true)) /\
  ((1 < 2)%positive ->
   exists a w',
     detach false (MkList 1) (world_of [10; 20] 2 true) = Some (MkList a, w') /\
     stores (world_of [10; 20] 2 true) !! a = None /\
     stores w' !! a = Some (SharedBlock 1 (ListPrivate.mk [10; 20] false)) /\
     stores w' !! d (MkList 1) =
       Some (SharedBlock (Pos.pred 2) (ListPrivate.mk [10; 20] true)) /\
     (forall a', a' <> a -> a' <> d (MkList 1) ->
                 stores w' !! a' = stores (world_of [10; 20] 2 true) !! a') /\
     deleted w' = deleted (world_of [10; 20] 2 true)).
Proof.
  split; [reflexivity|].
  apply (detach_spec false (world_of [10; 20] 2 true) (MkList 1)
           (SharedBlock 2 (ListPrivate.mk [10; 20] true))).
  reflexivity.
Defined.

(** C4 on [{1, 3, 5}] with [unique] set: inserting [3] leaves [{1, 3, 5}],
    inserting [4] gives [{1, 3, 4, 5}]. *)
Lemma sortedInsert_spec_witness :
  stores (world_of [1; 3; 5] 1 false) !! d (MkList 1) =
    Some (SharedBlock 1 (ListPrivate.mk [1; 3; 5] false)) /\
  (exists l' w',
     sortedInsert Z.ltb Z.eqb false (MkList 1) 3 true (world_of [1; 3; 5] 1 false)
       = Some (l', w') /\
     owners w' l' = Some 1%positive /\
     contents w' l' = Some [1; 3; 5]) /\
  (exists l' w',
     sortedInsert Z.ltb Z.eqb false (MkList 1) 4 true (world_of [1; 3; 5] 1 false)
       = Some (l', w') /\
     owners w' l' = Some 1%positive /\
     contents w' l' = Some [1; 3; 4; 5]) /\
  size (MkList 1) (world_of [1; 3; 5] 1 false) = Some (3, world_of [1; 3; 5] 1 false).
Proof.
  assert (H : stores (world_of [1; 3; 5] 1 false) !! d (MkList 1) =
                Some (SharedBlock 1 (ListPrivate.mk [1; 3; 5] false))) by reflexivity.
  split; [exact H|].
  split; [|split; [|reflexivity]].
  - destruct (sortedInsert_spec Z.ltb Z.eqb false _ _ _ 3 true H)
      as (i & l' & w' & Hi & Hlt & Hge & Hs & Ho & Hc).
    exists l', w'. split; [exact Hs|]. split; [exact Ho|].
    rewrite Hc. simpl in Hi, Hlt, Hge, Hc |- *.
    destruct i as [|[|[|[|i]]]]; simpl in *.
    + discriminate (Hge 1 eq_refl).
    + reflexivity.
    + discriminate (Hlt 1%nat 3 ltac:(lia) eq_refl).
    + discriminate (Hlt 1%nat 3 ltac:(lia) eq_refl).
    + lia.
  - destruct (sortedInsert_spec Z.ltb Z.eqb false _ _ _ 4 true H)
      as (i & l' & w' & Hi & Hlt & Hge & Hs & Ho & Hc).
    exists l', w'. split; [exact Hs|]. split; [exact Ho|].
    rewrite Hc. simpl in Hi, Hlt, Hge, Hc |- *.
    destruct i as [|[|[|[|i]]]]; simpl in *.
    + discriminate (Hge 1 eq_refl).
    + discriminate (Hge 3 eq_refl).
    + reflexivity.
    + discriminate (Hlt 2%nat 5 ltac:(lia) eq_refl).
    + lia.
Defined.

(** C5 on two lists holding [{1, 2, 3}], the first built by three calls of
    [append] on an empty list, the second from a braced list: they are in
    different stores and compare equal. *)
Lemma op_eq_structural_witness :
  (A <~ List_new ;;
   A <~ append_each false A [1; 2; 3] ;;
   B <~ List_init [1; 2; 3] ;;
   ret (A, B)) (World ∅ [])
  = Some ((MkList 1, MkList 2), world_two [1; 2; 3] [1; 2; 3] 1) /\
  d (MkList 1) <> d (MkList 2) /\
  op_eq Z.eqb (MkList 1) (MkList 2) (world_two [1; 2; 3] [1; 2; 3] 1)
  = Some (true, world_two [1; 2; 3] [1; 2; 3] 1) /\
  op_ne Z.eqb (MkList 1) (MkList 2) (world_two [1; 2; 3] [1; 2; 3] 1)
  = Some (false, world_two [1; 2; 3] [1; 2; 3] 1).
Proof.
  split; [vm_compute; reflexivity|]. split; [discriminate|].
  assert (HA : stores (world_two [1; 2; 3] [1; 2; 3] 1) !! d (MkList 1) =
               Some (SharedBlock 1 (ListPrivate.mk [1; 2; 3] false))) by reflexivity.
  assert (HB : stores (world_two [1; 2; 3] [1; 2; 3] 1) !! d (MkList 2) =
               Some (SharedBlock 1 (ListPrivate.mk [1; 2; 3] false))) by reflexivity.
  destruct (op_eq_structural Z.eqb _ _ _ _ _ HA HB) as (r & Heq & Hne & Hr).
  assert (r = true) as ->.
  { apply Hr. simpl. repeat constructor. }
  split; [exact Heq|exact Hne].
Defined.

(** C6 at [l = {7, 8, 9}] for a list of [{1, 2}] with [autoDelete] set. *)
Lemma assign_init_fresh_store_witness :
  stores (world_of [1; 2] 1 true) !! d (MkList 1) =
    Some (SharedBlock 1 (ListPrivate.mk [1; 2] true)) /\
  exists a w',
    assign_init false (MkList 1) [7; 8; 9] (world_of [1; 2] 1 true) = Some (MkList a, w') /\
    stores (world_of [1; 2] 1 true) !! a = None /\
    stores w' !! a = Some (SharedBlock 1 (ListPrivate.mk [7; 8; 9] true)).
Proof.
  split; [reflexivity|].
  apply (assign_init_fresh_store false (world_of [1; 2] 1 true) (MkList 1)
           (SharedBlock 1 (ListPrivate.mk [1; 2] true)) [7; 8; 9]).
  reflexivity.
Defined.

(** C7 on [{1, 2, 3}]: [it = l.begin(); ++it; l.erase(it);] removes [2] and
    returns the position of [3]. *)
Lemma erase_removes_one_witness :
  begin_ false (MkList 1) (world_of [1; 2; 3] 1 false) =
    Some ((MkList 1, MkIterator 1 0), world_of [1; 2; 3] 1 false) /\
  exists w' xs',
    erase (MkList 1) (Iterator_next (MkIterator 1 0)) (world_of [1; 2; 3] 1 false) =
      Some (MkIterator 1 1, w') /\
    contents w' (MkList 1) = Some xs' /\
    owners w' (MkList 1) = Some 1%positive /\
    S (length xs') = 3%nat /\
    xs' !! 0%nat = Some 1 /\
    xs' !! 1%nat = Some 3.
Proof.
  split; [reflexivity|].
  assert (H : stores (world_of [1; 2; 3] 1 false) !! d (MkList 1) =
              Some (SharedBlock 1 (ListPrivate.mk [1; 2; 3] false))) by reflexivity.
  destruct (erase_removes_one _ _ _ (Iterator_next (MkIterator 1 0)) H eq_refl)
    as (w' & xs' & He & _ & _ & Ho & Hc & Hlen & Hlo & Hhi).
  { simpl. lia. }
  exists w', xs'. split; [exact He|]. split; [exact Hc|]. split; [exact Ho|].
  split; [exact Hlen|].
  split; [exact (Hlo 0%nat ltac:(simpl; lia))|exact (Hhi 1%nat ltac:(simpl; lia))].
Defined.

(** C9 for a list of integers that shares its store: [setAutoDelete(true)]
    and then [autoDelete()]. *)
Lemma autoDelete_after_setAutoDelete_witness :
  stores (world_of [1; 2] 2 false) !! d (MkList 1) =
    Some (SharedBlock 2 (ListPrivate.mk [1; 2] false)) /\
  exists l' w',
    setAutoDelete false (MkList 1) true (world_of [1; 2] 2 false) = Some (l', w') /\
    autoDelete l' w' = Some (true, w') /\
    deleted w' = [].
Proof.
  split; [reflexivity|].
  assert (H : stores (world_of [1; 2] 2 false) !! d (MkList 1) =
              Some (SharedBlock 2 (ListPrivate.mk [1; 2] false))) by reflexivity.
  destruct (autoDelete_after_setAutoDelete false _ _ _ true H)
    as (l' & w' & Hs & Hg & Hd & _).
  exists l', w'. split; [exact Hs|]. split; [exact Hg|exact Hd].
Defined.

(** C10 on [{1, 2, 3}]. *)
Lemma size_truncates_witness :
  stores (world_of [1; 2; 3] 1 false) !! d (MkList 1) =
    Some (SharedBlock 1 (ListPrivate.mk [1; 2; 3] false)) /\
  size (MkList 1) (world_of [1; 2; 3] 1 false) =
    Some (3 mod 2 ^ 32, world_of [1; 2; 3] 1 false) /\
  (3 < 2 ^ 32 ->
   size (MkList 1) (world_of [1; 2; 3] 1 false) = Some (3, world_of [1; 2; 3] 1 false)).
Proof.
  split; [reflexivity|].
  apply (size_truncates (world_of [1; 2; 3] 1 false) (MkList 1)
           (SharedBlock 1 (ListPrivate.mk [1; 2; 3] false))).
  reflexivity.
Defined.

(** ** The further properties on lists of integers *)

(** X1 at [List<int> B(A);] for [A = {1, 2}]. *)
Lemma List_copy_shares_witness :
  stores (world_of [1; 2] 1 false) !! d (MkList 1) =
    Some (SharedBlock 1 (ListPrivate.mk [1; 2] false)) /\
  List_copy (MkList 1) (world_of [1; 2] 1 false) =
    Some (MkList 1, world_of [1; 2] 2 false).
Proof.
  assert (H : stores (world_of [1; 2] 1 false) !! d (MkList 1) =
              Some (SharedBlock 1 (ListPrivate.mk [1; 2] false))) by reflexivity.
  split; [exact H|].
  destruct (List_copy_shares _ _ _ H) as (w' & Hc & _).
  rewrite Hc. vm_compute in Hc. injection Hc as <-. reflexivity.
Defined.

(** X2 on [A = {1, 2}] with [autoDelete] set, for a pointer type. *)
Lemma List_copy_destroy_witness :
  stores (world_of [1; 2] 1 true) !! d (MkList 1) =
    Some (SharedBlock 1 (ListPrivate.mk [1; 2] true)) /\
  (B <~ List_copy (MkList 1) ;; List_destroy true B) (world_of [1; 2] 1 true) =
    Some (tt, world_of [1; 2] 1 true).
Proof.
  assert (H : stores (world_of [1; 2] 1 true) !! d (MkList 1) =
              Some (SharedBlock 1 (ListPrivate.mk [1; 2] true))) by reflexivity.
  split; [exact H|]. exact (List_copy_destroy true _ _ _ H).
Defined.

(** X3 on the last owner of [{1, 2}] with [autoDelete] set, for a pointer
    type: both members are deleted and the store is gone. *)
Lemma List_destroy_spec_witness :
  stores (world_of [1; 2] 1 true) !! d (MkList 1) =
    Some (SharedBlock 1 (ListPrivate.mk [1; 2] true)) /\
  exists w',
    List_destroy true (MkList 1) (world_of [1; 2] 1 true) = Some (tt, w') /\
    stores w' !! 1%positive = None /\
    deleted w' = [1; 2].
Proof.
  assert (H : stores (world_of [1; 2] 1 true) !! d (MkList 1) =
              Some (SharedBlock 1 (ListPrivate.mk [1; 2] true))) by reflexivity.
  split; [exact H|].
  destruct (List_destroy_spec true _ _ _ H) as (w' & Hd & _ & Hlast & _).
  destruct (Hlast eq_refl) as (Hgone & Hdel).
  exists w'. split; [exact Hd|]. split; [exact Hgone|exact Hdel].
Defined.

(** X4 on an empty list: [prepend(1)] then [append(2)] gives [{1, 2}]. *)
Lemma prepend_then_append_witness :
  stores (world_of [] 1 false) !! d (MkList 1) =
    Some (SharedBlock 1 (ListPrivate.mk [] false)) /\
  exists l1 w1 w2,
    prepend false (MkList 1) 1 (world_of [] 1 false) = Some (l1, w1) /\
    append false l1 2 w1 = Some (l1, w2) /\
    contents w2 l1 = Some [1; 2].
Proof.
  assert (H : stores (world_of [] 1 false) !! d (MkList 1) =
              Some (SharedBlock 1 (ListPrivate.mk [] false))) by reflexivity.
  split; [exact H|].
  destruct (prepend_then_append false _ _ _ 1 2 H) as (l1 & w1 & w2 & Hp & _ & Ha & Hc & _).
  exists l1, w1, w2. split; [exact Hp|]. split; [exact Ha|exact Hc].
Defined.

(** X6 at [B.append(A)] for a copy [B] of [A = {1, 2}]: [B] becomes
    [{1, 2, 1, 2}] and [A] stays [{1, 2}]. *)
Lemma append_list_spec_witness :
  stores (world_of [1; 2] 2 false) !! d (MkList 1) =
    Some (SharedBlock 2 (ListPrivate.mk [1; 2] false)) /\
  (d (MkList 1) = d (MkList 1) -> 2%positive <> 1%positive) /\
  exists l' w',
    append_list false (MkList 1) (MkList 1) (world_of [1; 2] 2 false) = Some (l', w') /\
    contents w' l' = Some [1; 2; 1; 2] /\
    contents w' (MkList 1) = Some [1; 2].
Proof.
  assert (H : stores (world_of [1; 2] 2 false) !! d (MkList 1) =
              Some (SharedBlock 2 (ListPrivate.mk [1; 2] false))) by reflexivity.
  assert (Hsh : d (MkList 1) = d (MkList 1) -> 2%positive <> 1%positive)
    by (intros _; discriminate).
  split; [exact H|]. split; [exact Hsh|].
  destruct (append_list_spec false _ _ _ _ _ H H Hsh) as (l' & w' & Ha & Hc & Ho & _).
  exists l', w'. split; [exact Ha|]. split; [exact Hc|exact Ho].
Defined.

(** X7 at [A.prepend(B)] for [A = {3}] and [B = {1, 2}] on two stores. *)
Lemma prepend_list_spec_witness :
  stores (world_two [3] [1; 2] 1) !! d (MkList 1) =
    Some (SharedBlock 1 (ListPrivate.mk [3] false)) /\
  stores (world_two [3] [1; 2] 1) !! d (MkList 2) =
    Some (SharedBlock 1 (ListPrivate.mk [1; 2] false)) /\
  exists l' w',
    prepend_list false (MkList 1) (MkList 2) (world_two [3] [1; 2] 1) = Some (l', w') /\
    contents w' l' = Some [1; 2; 3] /\
    contents w' (MkList 2) = Some [1; 2].
Proof.
  assert (H : stores (world_two [3] [1; 2] 1) !! d (MkList 1) =
              Some (SharedBlock 1 (ListPrivate.mk [3] false))) by reflexivity.
  assert (Ho : stores (world_two [3] [1; 2] 1) !! d (MkList 2) =
               Some (SharedBlock 1 (ListPrivate.mk [1; 2] false))) by reflexivity.
  split; [exact H|]. split; [exact Ho|].
  destruct (prepend_list_spec false _ _ _ _ _ H Ho) as (l' & w' & Ha & Hc & Hk & _).
  { simpl. discriminate. }
  exists l', w'. split; [exact Ha|]. split; [exact Hc|exact Hk].
Defined.

(** X8 on [{1, 2}] with [autoDelete] set, for a pointer type: the sole owner
    deletes both members; a list that shares the store deletes none. *)
Lemma clear_spec_witness :
  stores (world_of [1; 2] 1 true) !! d (MkList 1) =
    Some (SharedBlock 1 (ListPrivate.mk [1; 2] true)) /\
  (exists l' w',
     clear true (MkList 1) (world_of [1; 2] 1 true) = Some (l', w') /\
     contents w' l' = Some [] /\ deleted w' = [1; 2]) /\
  (exists l' w',
     clear true (MkList 1) (world_of [1; 2] 2 true) = Some (l', w') /\
     contents w' l' = Some [] /\ deleted w' = [] /\
     contents w' (MkList 1) = Some [1; 2]).
Proof.
  assert (H : stores (world_of [1; 2] 1 true) !! d (MkList 1) =
              Some (SharedBlock 1 (ListPrivate.mk [1; 2] true))) by reflexivity.
  assert (H2 : stores (world_of [1; 2] 2 true) !! d (MkList 1) =
               Some (SharedBlock 2 (ListPrivate.mk [1; 2] true))) by reflexivity.
  split; [exact H|]. split.
  - destruct (clear_spec true _ _ _ H) as (l' & w' & Hc & Hem & _ & Hsole & _).
    destruct (Hsole eq_refl) as (_ & _ & Hdel).
    exists l', w'. split; [exact Hc|]. split; [exact Hem|exact Hdel].
  - destruct (clear_spec true _ _ _ H2) as (l' & w' & Hc & Hem & _ & _ & Hsh).
    destruct (Hsh ltac:(discriminate)) as (_ & Hold & _ & Hdel).
    exists l', w'. split; [exact Hc|]. split; [exact Hem|]. split; [exact Hdel|].
    unfold contents. rewrite Hold. reflexivity.
Defined.

(** X9 on [{4, 7, 7}]: [find(7)] is the second position, [find(5)] the end. *)
Lemma find_first_match_witness :
  stores (world_of [4; 7; 7] 1 false) !! d (MkList 1) =
    Some (SharedBlock 1 (ListPrivate.mk [4; 7; 7] false)) /\
  cfind Z.eqb (MkList 1) 7 (world_of [4; 7; 7] 1 false) =
    Some (MkIterator 1 1, world_of [4; 7; 7] 1 false) /\
  cfind Z.eqb (MkList 1) 5 (world_of [4; 7; 7] 1 false) =
    cend (MkList 1) (world_of [4; 7; 7] 1 false).
Proof.
  assert (H : stores (world_of [4; 7; 7] 1 false) !! d (MkList 1) =
              Some (SharedBlock 1 (ListPrivate.mk [4; 7; 7] false))) by reflexivity.
  split; [exact H|]. split.
  - destruct (find_first_match Z.eqb false _ _ _ 7 H)
      as (i & Hf & Hi & Hlo & Hhi & _).
    rewrite Hf. do 3 f_equal. simpl in Hi, Hlo, Hhi.
    destruct i as [|[|[|[|i]]]]; simpl in *.
    + discriminate (Hhi 4 eq_refl).
    + reflexivity.
    + discriminate (Hlo 1%nat 7 ltac:(lia) eq_refl).
    + discriminate (Hlo 1%nat 7 ltac:(lia) eq_refl).
    + lia.
  - destruct (find_first_match Z.eqb false _ _ _ 5 H)
      as (i & Hf & _ & _ & _ & Hend & _).
    rewrite Hf, Hend; [reflexivity|].
    intros y Hy. simpl in Hy.
    repeat (apply elem_of_cons in Hy as [->|Hy]; [reflexivity|]).
    inversion Hy.
Defined.

(** X10 on [{4, 7, 7}]: it contains [7] and does not contain [5]. *)
Lemma contains_iff_witness :
  stores (world_of [4; 7; 7] 1 false) !! d (MkList 1) =
    Some (SharedBlock 1 (ListPrivate.mk [4; 7; 7] false)) /\
  contains Z.eqb (MkList 1) 7 (world_of [4; 7; 7] 1 false) =
    Some (true, world_of [4; 7; 7] 1 false).
Proof.
  assert (H : stores (world_of [4; 7; 7] 1 false) !! d (MkList 1) =
              Some (SharedBlock 1 (ListPrivate.mk [4; 7; 7] false))) by reflexivity.
  split; [exact H|].
  destruct (contains_iff Z.eqb _ _ _ 7 H) as (r & Hc & Hr).
  rewrite Hc. assert (r = true) as -> ; [|reflexivity].
  apply Hr. exists 7. split; [|reflexivity].
  simpl. apply list_elem_of_further, list_elem_of_here.
Defined.

(** X11 on the empty list. *)
Lemma isEmpty_size_witness :
  stores (world_of [] 1 false) !! d (MkList 1) =
    Some (SharedBlock 1 (ListPrivate.mk [] false)) /\
  isEmpty (MkList 1) (world_of [] 1 false) = Some (true, world_of [] 1 false) /\
  size (MkList 1) (world_of [] 1 false) = Some (0, world_of [] 1 false).
Proof.
  assert (H : stores (world_of [] 1 false) !! d (MkList 1) =
              Some (SharedBlock 1 (ListPrivate.mk [] false))) by reflexivity.
  split; [exact H|].
  destruct (isEmpty_size _ _ _ H) as (e & n & He & Hn & Hiff & Hzero & _).
  assert (e = true) as -> by (apply Hiff; reflexivity).
  rewrite He, Hn, (Hzero eq_refl). split; reflexivity.
Defined.

(** X12 on [{1, 3}]: [insert] of [2] before the second position, then
    [erase] of what was inserted. *)
Lemma insert_then_erase_witness :
  stores (world_of [1; 3] 1 false) !! d (MkList 1) =
    Some (SharedBlock 1 (ListPrivate.mk [1; 3] false)) /\
  exists it' w1,
    insert (MkList 1) (MkIterator 1 1) 2 (world_of [1; 3] 1 false) = Some (it', w1) /\
    contents w1 (MkList 1) = Some [1; 2; 3] /\
    erase (MkList 1) it' w1 = Some (MkIterator 1 1, world_of [1; 3] 1 false).
Proof.
  assert (H : stores (world_of [1; 3] 1 false) !! d (MkList 1) =
              Some (SharedBlock 1 (ListPrivate.mk [1; 3] false))) by reflexivity.
  split; [exact H|].
  destruct (insert_then_erase _ _ _ (MkIterator 1 1) 2 H eq_refl)
    as (it' & w1 & Hi & _ & Hc & _ & He).
  { simpl. lia. }
  exists it', w1. split; [exact Hi|]. split; [exact Hc|exact He].
Defined.

(** X13 on [{5}]: after [prepend(1)] the front is [1], after [append(9)] the
    back is [9]. *)
Lemma front_back_after_insertion_witness :
  stores (world_of [5] 1 false) !! d (MkList 1) =
    Some (SharedBlock 1 (ListPrivate.mk [5] false)) /\
  (exists l' w',
     prepend false (MkList 1) 9 (world_of [5] 1 false) = Some (l', w') /\
     cfront l' w' = Some (9, w')) /\
  (exists l' w',
     append false (MkList 1) 9 (world_of [5] 1 false) = Some (l', w') /\
     cback l' w' = Some (9, w')).
Proof.
  assert (H : stores (world_of [5] 1 false) !! d (MkList 1) =
              Some (SharedBlock 1 (ListPrivate.mk [5] false))) by reflexivity.
  split; [exact H|].
  destruct (front_back_after_insertion false _ _ _ 9 H)
    as ((l1 & w1 & r1 & Hp & Hf & _) & (l2 & w2 & r2 & Ha & Hb & _)).
  split; [exists l1, w1|exists l2, w2]; split; assumption.
Defined.

(** X14 on [{1, 3, 5}] and [sortedInsert(3)] without [unique]. *)
Lemma sortedInsert_keeps_ascending_witness :
  (forall x y, (x <? y) = true -> (y <? x) = false) /\
  stores (world_of [1; 3; 5] 1 false) !! d (MkList 1) =
    Some (SharedBlock 1 (ListPrivate.mk [1; 3; 5] false)) /\
  ascending Z.ltb [1; 3; 5] /\
  exists l' w' ys,
    sortedInsert Z.ltb Z.eqb false (MkList 1) 3 false (world_of [1; 3; 5] 1 false)
      = Some (l', w') /\
    contents w' l' = Some ys /\
    ascending Z.ltb ys /\
    ys ≡ₚ [3; 1; 3; 5].
Proof.
  assert (Hasym : forall x y, (x <? y) = true -> (y <? x) = false)
    by (intros x y; rewrite Z.ltb_lt, Z.ltb_ge; lia).
  assert (H : stores (world_of [1; 3; 5] 1 false) !! d (MkList 1) =
              Some (SharedBlock 1 (ListPrivate.mk [1; 3; 5] false))) by reflexivity.
  assert (Hs : ascending Z.ltb [1; 3; 5])
    by (repeat constructor).
  split; [exact Hasym|]. split; [exact H|]. split; [exact Hs|].
  destruct (sortedInsert_keeps_ascending Z.ltb Z.eqb false _ _ _ 3 false Hasym H Hs)
    as (l' & w' & ys & Hrun & Hc & Hasc & _ & Hperm).
  exists l', w', ys. split; [exact Hrun|]. split; [exact Hc|].
  split; [exact Hasc|exact (Hperm eq_refl)].
Defined.

(** X15 on [{1, 3, 5}]: [sortedInsert(3, true)] changes nothing. *)
Lemma sortedInsert_unique_iff_witness :
  stores (world_of [1; 3; 5] 1 false) !! d (MkList 1) =
    Some (SharedBlock 1 (ListPrivate.mk [1; 3; 5] false)) /\
  ascending Z.ltb [1; 3; 5] /\
  exists l' w',
    sortedInsert Z.ltb Z.eqb false (MkList 1) 3 true (world_of [1; 3; 5] 1 false)
      = Some (l', w') /\
    contents w' l' = Some [1; 3; 5].
Proof.
  assert (H : stores (world_of [1; 3; 5] 1 false) !! d (MkList 1) =
              Some (SharedBlock 1 (ListPrivate.mk [1; 3; 5] false))) by reflexivity.
  assert (Hs : ascending Z.ltb [1; 3; 5])
    by (repeat constructor).
  split; [exact H|]. split; [exact Hs|].
  destruct (sortedInsert_unique_iff Z.ltb Z.eqb false _ _ _ 3
              Z.eqb_eq Z.ltb_irrefl
              ltac:(intros x y z; rewrite !Z.ltb_lt; lia)
              ltac:(intros x y; rewrite !Z.ltb_ge; lia)
              H Hs)
    as (l' & w' & ys & Hrun & Hc & Hin & _).
  exists l', w'. split; [exact Hrun|].
  rewrite Hc, Hin; [reflexivity|].
  simpl. apply list_elem_of_further, list_elem_of_here.
Defined.

(** X16 at [l = {7}] for the sole owner of [{1, 2}] with [autoDelete] set,
    for a pointer type. *)
Lemma assign_init_releases_witness :
  stores (world_of [1; 2] 1 true) !! d (MkList 1) =
    Some (SharedBlock 1 (ListPrivate.mk [1; 2] true)) /\
  exists a w',
    assign_init true (MkList 1) [7] (world_of [1; 2] 1 true) = Some (MkList a, w') /\
    contents w' (MkList a) = Some [7] /\
    stores w' !! 1%positive = None /\
    deleted w' = [1; 2].
Proof.
  assert (H : stores (world_of [1; 2] 1 true) !! d (MkList 1) =
              Some (SharedBlock 1 (ListPrivate.mk [1; 2] true))) by reflexivity.
  split; [exact H|].
  destruct (assign_init_releases true _ _ _ [7] H)
    as (a & w' & Hrun & _ & _ & Hc & Hsole & _).
  destruct (Hsole eq_refl) as (Hgone & Hdel).
  exists a, w'. split; [exact Hrun|]. split; [exact Hc|]. split; [exact Hgone|exact Hdel].
Defined.

(** X17 at [B.clear()] for a list [B] of pointers that shares [{10, 20}],
    with [autoDelete] set, with another list. *)
Lemma detaching_member_leaves_sharers_witness :
  calls_detach (@MClear Z) = true /\
  stores (world_of [10; 20] 2 true) !! d (MkList 1) =
    Some (SharedBlock 2 (ListPrivate.mk [10; 20] true)) /\
  run Z.ltb Z.eqb true MClear (MkList 1) (world_of [10; 20] 2 true) =
    Some (MkList 2,
          World (<[2%positive := SharedBlock 1 (ListPrivate.mk [] false)]>
                   {[1%positive := SharedBlock 1 (ListPrivate.mk [10; 20] true)]}) []) /\
  stores (World (<[2%positive := SharedBlock 1 (ListPrivate.mk [] false)]>
                   {[1%positive := SharedBlock 1 (ListPrivate.mk [10; 20] true)]}) [])
    !! d (MkList 1) =
    Some (SharedBlock (Pos.pred 2) (ListPrivate.mk [10; 20] true)).
Proof.
  assert (H : stores (world_of [10; 20] 2 true) !! d (MkList 1) =
              Some (SharedBlock 2 (ListPrivate.mk [10; 20] true))) by reflexivity.
  assert (E : run Z.ltb Z.eqb true MClear (MkList 1) (world_of [10; 20] 2 true) =
    Some (MkList 2,
          World (<[2%positive := SharedBlock 1 (ListPrivate.mk [] false)]>
                   {[1%positive := SharedBlock 1 (ListPrivate.mk [10; 20] true)]}) []))
    by (vm_compute; reflexivity).
  split; [reflexivity|]. split; [exact H|]. split; [exact E|].
  exact (proj1 (proj2 (proj2
           (detaching_member_leaves_sharers Z.ltb Z.eqb true MClear _ _ _ _ _
              eq_refl H ltac:(discriminate) E)))).
Defined.

(** X18 on a list that shares [{1, 2}]. *)
Lemma detach_twice_witness :
  stores (world_of [1; 2] 2 false) !! d (MkList 1) =
    Some (SharedBlock 2 (ListPrivate.mk [1; 2] false)) /\
  exists l1 w1,
    detach false (MkList 1) (world_of [1; 2] 2 false) = Some (l1, w1) /\
    contents w1 l1 = Some [1; 2] /\
    detach false l1 w1 = Some (l1, w1).
Proof.
  assert (H : stores (world_of [1; 2] 2 false) !! d (MkList 1) =
              Some (SharedBlock 2 (ListPrivate.mk [1; 2] false))) by reflexivity.
  split; [exact H|]. exact (detach_twice false _ _ _ H).
Defined.

(** X19 on [A = {1, 2}] and [x = 2]. *)
Lemma copy_equal_until_written_witness :
  (forall y, y ∈ [1; 2] -> (y =? y) = true) /\
  stores (world_of [1; 2] 1 false) !! d (MkList 1) =
    Some (SharedBlock 1 (ListPrivate.mk [1; 2] false)) /\
  exists B w1 B' w2,
    List_copy (MkList 1) (world_of [1; 2] 1 false) = Some (B, w1) /\
    op_eq Z.eqb (MkList 1) B w1 = Some (true, w1) /\
    append false B 2 w1 = Some (B', w2) /\
    op_eq Z.eqb (MkList 1) B' w2 = Some (false, w2).
Proof.
  assert (Hr : forall y, y ∈ [1; 2] -> (y =? y) = true)
    by (intros y _; apply Z.eqb_refl).
  assert (H : stores (world_of [1; 2] 1 false) !! d (MkList 1) =
              Some (SharedBlock 1 (ListPrivate.mk [1; 2] false))) by reflexivity.
  split; [exact Hr|]. split; [exact H|].
  destruct (copy_equal_until_written Z.eqb false _ _
              (SharedBlock 1 (ListPrivate.mk [1; 2] false)) 2 Hr H)
    as (B & w1 & B' & w2 & Hc & He & _ & Ha & He' & _).
  exists B, w1, B', w2. repeat (split; [assumption|]). exact He'.
Defined.
